(** * Material Components Web: theme validation, custom properties and the
      text-field character counter.

    A shallow embedding of
      - packages/mdc-theme/_validate.scss,
      - the custom-properties Sass module (configure, create, get-fallback,
        set-fallback, create-var, declaration),
      - packages/mdc-textfield/character-counter/foundation.ts,
    together with the properties their specification states. *)

From Stdlib Require Import List String Ascii ZArith Lia Bool Arith.
From Stdlib Require Import Decimal DecimalString DecimalZ DecimalPos.
From Equations Require Import Equations.
From Equations.Prop Require Import Logic.
Import ListNotations.
Set Warnings "-register-all".
Open Scope string_scope.

(** ** Sass values *)

(** The Sass values the modules handle.  Quoted and unquoted strings are
    equal in Sass, so one constructor stands for both.  Every map of these
    modules is keyed by strings (token names, [varname]/[fallback], the
    configuration switches); a map keeps its insertion order.  A plain CSS
    function call such as [var(--x, teal)] is kept symbolic in [VCall]. *)
Inductive value : Type :=
| VNull
| VBool (b : bool)
| VNum (n : Z)
| VStr (s : string)
| VList (l : list value)
| VMap (m : list (string * value))
| VCall (name : string) (args : list value).

Definition smap := list (string * value).

(** Errors that halt the compilation of the style sheet: the [@error]
    rules of the modules, the argument errors of the Sass built-ins
    [map.get] and [string.slice], and the error Sass raises when it has to
    write as CSS text a value that has none. *)
Inductive error : Type :=
| ContentRequired
    (* 'content is required for configure()' *)
| InvalidTokens (unsupported : list string)
    (* 'The following tokens are invalid: #{$unsupported-tokens}.' *)
| MissingTokens (missing : list string)
    (* 'The following required tokens are missing: #{$missing-tokens}.' *)
| InvalidCustomProperty (custom_prop : value)
    (* "Invalid custom property: #{$custom-prop}. Must be a Map with
       'varname' and 'fallback'." *)
| NotAMap (v : value)
    (* built-in: "$map: v is not a map." *)
| NotAString (v : value)
    (* built-in: "$string: v is not a string." *)
| NotACssValue (v : value).
    (* "v isn't a valid CSS value." *)

Inductive result (A : Type) : Type :=
| Ok (a : A)
| Error (e : error).
Arguments Ok {A} a.
Arguments Error {A} e.

Definition bind {A B} (r : result A) (k : A -> result B) : result B :=
  match r with
  | Ok a => k a
  | Error e => Error e
  end.

Notation "x <- r ;; k" := (bind r (fun x => k))
  (at level 61, r at next level, right associativity).

Definition is_error {A} (r : result A) : bool :=
  match r with Ok _ => false | Error _ => true end.

(** [@if $v]: every value but [null] and [false] is truthy. *)
Definition truthy (v : value) : bool :=
  match v with
  | VNull | VBool false => false
  | _ => true
  end.

(** [$v == null] *)
Definition is_null (v : value) : bool :=
  match v with VNull => true | _ => false end.

(** ** sass:map and sass:list on insertion-ordered maps *)

Fixpoint assoc_get (m : smap) (key : string) : value :=
  match m with
  | [] => VNull
  | (k, v) :: rest => if String.eqb k key then v else assoc_get rest key
  end.

Fixpoint assoc_has_key (m : smap) (key : string) : bool :=
  match m with
  | [] => false
  | (k, _) :: rest => String.eqb k key || assoc_has_key rest key
  end.

(** [map.remove($map, $key)] *)
Definition map_remove (m : smap) (key : string) : smap :=
  filter (fun kv => negb (String.eqb (fst kv) key)) m.

(** Setting one key: an existing key keeps its place, a new one goes last. *)
Fixpoint map_set (m : smap) (key : string) (v : value) : smap :=
  match m with
  | [] => [(key, v)]
  | (k, x) :: rest =>
      if String.eqb k key then (k, v) :: rest else (k, x) :: map_set rest key v
  end.

(** [map.merge($map1, $map2)] *)
Definition map_merge (m1 m2 : smap) : smap :=
  fold_left (fun acc kv => map_set acc (fst kv) (snd kv)) m2 m1.

(** [map.keys($map)] *)
Definition map_keys (m : smap) : list string := map fst m.

(** The empty list [()] is also the empty map. *)
Definition as_map (v : value) : option smap :=
  match v with
  | VMap m => Some m
  | VList [] => Some []
  | _ => None
  end.

(** [map.get($map, $key)]: [null] when the key is absent. *)
Definition map_get (v : value) (key : string) : result value :=
  match as_map v with
  | Some m => Ok (assoc_get m key)
  | None => Error (NotAMap v)
  end.

(** [list.index($list, $value) == null] on a list of token names. *)
Definition list_index_is_null (l : list string) (x : string) : bool :=
  negb (existsb (String.eqb x) l).

(** The strings among the values: a plain string, and the unquoted string
    [name(args)] a plain CSS function call evaluates to. *)
Inductive sass_string : Type :=
| Plain (text : string)
| Call (name : string) (args : list value).

Definition of_string (s : sass_string) : value :=
  match s with
  | Plain text => VStr text
  | Call name args => VCall name args
  end.

(** The argument check of the sass:string functions. *)
Definition as_string (v : value) : result sass_string :=
  match v with
  | VStr s => Ok (Plain s)
  | VCall name args => Ok (Call name args)
  | _ => Error (NotAString v)
  end.

(** The start of a string's text: for a call, its name and the opening
    parenthesis. *)
Definition text_start (s : sass_string) : string :=
  match s with
  | Plain text => text
  | Call name _ => name ++ "("
  end.

(** [string.slice($string, $start-at, $end-at)], with Sass's indices, which
    count from 1 and include both ends; the slices these modules take, of
    the first two and the first four characters, lie within the start of
    the text. *)
Definition string_slice (v : value) (start_at end_at : nat) : result string :=
  s <- as_string v ;;
  Ok (substring (start_at - 1) (end_at + 1 - start_at) (text_start s)).

(** Is the value left out when a list is written as CSS text?  [null] is,
    and so is a list of such values. *)
Fixpoint blank (v : value) : bool :=
  match v with
  | VNull => true
  | VList l => forallb blank l
  | _ => false
  end.

(** The value Sass refuses to write as CSS text, in an interpolation or as
    the argument of a plain CSS function, if there is one: a map, the
    empty list, or the first such value among the elements of a list that
    are not left out. *)
Fixpoint invalid_css (v : value) : option value :=
  match v with
  | VMap _ => Some v
  | VList [] => Some v
  | VList l =>
      (fix first_invalid (l : list value) : option value :=
         match l with
         | [] => None
         | x :: rest =>
             if blank x then first_invalid rest
             else match invalid_css x with
                  | Some bad => Some bad
                  | None => first_invalid rest
                  end
         end) l
  | _ => None
  end.

(** The evaluation of a plain CSS function call [name(args)]: each
    argument is written as CSS text, and the result is an unquoted
    string. *)
Fixpoint plain_css_call (name : string) (args checked : list value)
  : result value :=
  match checked with
  | [] => Ok (VCall name args)
  | x :: rest =>
      match invalid_css x with
      | Some bad => Error (NotACssValue bad)
      | None => plain_css_call name args rest
      end
  end.

(** ** The css module *)

Module Css.

(** One declaration put into the generated style sheet: the property, the
    value, the optional fallback value, the annotation map and the
    [!important] flag. *)
Record emitted : Type := Emit {
  property : value;
  value_ : value;
  fallback_value : value;
  gss : value;
  important : value
}.

(** Modelled from the spec: the mixin [css.declaration] of the module
    [./css], which is not among the sources.  The spec says it emits a CSS
    declaration (property and value, with an optional fallback and an
    annotation map) into the generated style sheet; the style sheet is
    the list of these emissions, each with the arguments it was given. *)
Definition declaration (property value_ fallback_value gss important : value)
  : list emitted :=
  [Emit property value_ fallback_value gss important].

End Css.

(** ** The custom-properties module *)

Module CustomProperties.

(** [$_config], as the module initialises it. *)
Definition default_config : smap :=
  [ ("emit-custom-properties", VBool true);
    ("emit-fallback-values", VBool true);
    ("emit-fallback-vars", VBool true) ].

(** [meta.type-of($value) == 'map' and map.has-key($value, 'varname')] *)
Definition is_custom_prop (v : value) : bool :=
  match v with
  | VMap m => assoc_has_key m "varname"
  | _ => false
  end.

(** [meta.type-of($value) == 'string' and
    string.slice($value, 1, 4) == 'var(']: a plain CSS function call is
    an unquoted string, whose text starts with the function's name and an
    opening parenthesis. *)
Definition is_custom_prop_string (v : value) : bool :=
  match v with
  | VStr s => String.eqb (substring 0 4 s) "var("
  | VCall name _ => String.eqb (substring 0 4 (name ++ "(")) "var("
  | _ => false
  end.

Definition _varname_prefix : string := "mdc".

(** [--#{$_varname-prefix}-#{$name}], for a name that is a string, as
    [create] and the documentation have it: the interpolation of a string
    is its text. *)
Definition create_varname (name : sass_string) : sass_string :=
  match name with
  | Plain text => Plain ("--" ++ _varname_prefix ++ "-" ++ text)
  | Call function args => Call ("--" ++ _varname_prefix ++ "-" ++ function) args
  end.

Definition create (varname : value) (fallback : value) : result value :=
  prefix <- string_slice varname 1 2 ;;
  varname <- (if negb (String.eqb prefix "--")
              then name <- as_string varname ;;
                   Ok (of_string (create_varname name))
              else Ok varname) ;;
  Ok (VMap [("varname", varname); ("fallback", fallback)]).

Definition get_varname (custom_prop : value) : result value :=
  map_get custom_prop "varname".

(** A termination measure: a value found in a map is smaller than the map. *)
Fixpoint size (v : value) : nat :=
  match v with
  | VNull => 0
  | VMap m => S (list_sum (map (fun kv => size (snd kv)) m))
  | _ => 1
  end.

Lemma assoc_get_size (m : smap) (key : string) :
  size (assoc_get m key) <= list_sum (map (fun kv => size (snd kv)) m).
Proof.
  induction m as [|[k v] rest IH]; simpl; [lia|].
  destruct (String.eqb k key); lia.
Qed.

Lemma map_get_size (v : value) (key : string) (x : value) :
  map_get v key = Ok x -> size x < size v.
Proof.
  unfold map_get.
  destruct v as [| | | |l|m|]; simpl; try discriminate.
  - destruct l; simpl; [|discriminate]. intros H; inversion H; subst. simpl. lia.
  - intros H; inversion H; subst. pose proof (assoc_get_size m key). lia.
Qed.

Equations? get_fallback (custom_prop : value) (shallow : bool) : result value
  by wf (size custom_prop) lt :=
get_fallback custom_prop shallow with inspect (map_get custom_prop "fallback") := {
  | exist _ (Error e) _ => Error e
  | exist _ (Ok fallback) Hget =>
      if is_custom_prop fallback && negb shallow
      then get_fallback fallback false
      else Ok fallback }.
Proof. eapply map_get_size; eauto. Qed.

Lemma get_fallback_eq (custom_prop : value) (shallow : bool) :
  get_fallback custom_prop shallow =
  (fallback <- map_get custom_prop "fallback" ;;
   if is_custom_prop fallback && negb shallow
   then get_fallback fallback false
   else Ok fallback).
Proof.
  funelim (get_fallback custom_prop shallow).
  - rewrite Hget. reflexivity.
  - rewrite e1. reflexivity.
Qed.

Lemma get_fallback_shallow (custom_prop : value) :
  get_fallback custom_prop true = map_get custom_prop "fallback".
Proof.
  rewrite get_fallback_eq. destruct (map_get custom_prop "fallback"); simpl; [|reflexivity].
  rewrite andb_false_r. reflexivity.
Qed.

Equations? set_fallback (custom_prop new_fallback : value) (shallow : bool)
  : result value by wf (size custom_prop) lt :=
set_fallback custom_prop new_fallback shallow
  with inspect (get_varname custom_prop) := {
  | exist _ (Error e) _ => Error e
  | exist _ (Ok varname) _
    with inspect (get_fallback custom_prop true) := {
    | exist _ (Error e) _ => Error e
    | exist _ (Ok first_fallback) Hfirst =>
        new_fallback <-
          (if is_custom_prop first_fallback && negb shallow
           then set_fallback first_fallback new_fallback false
           else Ok new_fallback) ;;
        create varname new_fallback } }.
Proof.
  rewrite get_fallback_shallow in Hfirst. eapply map_get_size; eauto.
Qed.

(** [var($varname)] and [var($varname, $fallback)]: a plain CSS function
    call. *)
Definition var (args : list value) : result value :=
  plain_css_call "var" args args.

Equations? create_var (config : smap) (custom_prop : value) : result value
  by wf (size custom_prop) lt :=
create_var config custom_prop
  with negb (truthy (assoc_get config "emit-custom-properties")) := {
  | true => get_fallback custom_prop false
  | false with inspect (get_varname custom_prop) := {
    | exist _ (Error e) _ => Error e
    | exist _ (Ok varname) _
      with inspect (get_fallback custom_prop true) := {
      | exist _ (Error e) _ => Error e
      | exist _ (Ok fallback) Hfallback =>
          let emit_fallback_vars := assoc_get config "emit-fallback-vars" in
          let fallback_is_prop := is_custom_prop fallback in
          if fallback_is_prop && truthy emit_fallback_vars
          then inner <- create_var config fallback ;;
               var [varname; inner]
          else
            let emit_fallback_values :=
              assoc_get config "emit-fallback-values" in
            if truthy fallback && negb fallback_is_prop
               && truthy emit_fallback_values
            then var [varname; fallback]
            else var [varname] } } }.
Proof.
  rewrite get_fallback_shallow in Hfallback. eapply map_get_size; eauto.
Qed.

Lemma set_fallback_eq (custom_prop new_fallback : value) (shallow : bool) :
  set_fallback custom_prop new_fallback shallow =
  (varname <- get_varname custom_prop ;;
   first_fallback <- get_fallback custom_prop true ;;
   new_fallback <-
     (if is_custom_prop first_fallback && negb shallow
      then set_fallback first_fallback new_fallback false
      else Ok new_fallback) ;;
   create varname new_fallback).
Proof.
  funelim (set_fallback custom_prop new_fallback shallow);
    repeat match goal with
           | E : get_varname ?p = _ |- context [get_varname ?p] => rewrite E
           | E : get_fallback ?p true = _ |- context [get_fallback ?p true] =>
               rewrite E
           end; reflexivity.
Qed.

Lemma create_var_eq (config : smap) (custom_prop : value) :
  create_var config custom_prop =
  if negb (truthy (assoc_get config "emit-custom-properties"))
  then get_fallback custom_prop false
  else
    varname <- get_varname custom_prop ;;
    fallback <- get_fallback custom_prop true ;;
    if is_custom_prop fallback && truthy (assoc_get config "emit-fallback-vars")
    then inner <- create_var config fallback ;; var [varname; inner]
    else if truthy fallback && negb (is_custom_prop fallback)
            && truthy (assoc_get config "emit-fallback-values")
         then var [varname; fallback]
         else var [varname].
Proof.
  funelim (create_var config custom_prop);
    repeat match goal with
           | E : negb ?b = _ |- context [negb ?b] => rewrite E
           | E : get_varname ?p = _ |- context [get_varname ?p] => rewrite E
           | E : get_fallback ?p true = _ |- context [get_fallback ?p true] =>
               rewrite E
           end; reflexivity.
Qed.

Definition get_declaration_value (config : smap) (custom_prop : value)
  : result value :=
  create_var config custom_prop.

Definition get_declaration_fallback (config : smap) (custom_prop : value)
  : result value :=
  let emit_custom_properties := assoc_get config "emit-custom-properties" in
  let emit_fallback_values := assoc_get config "emit-fallback-values" in
  if negb (truthy emit_custom_properties) || negb (truthy emit_fallback_values)
  then Ok VNull
  else get_fallback custom_prop false.

(** A record's fallback chain: [fallback_chain p c] when following the
    [fallback] entries from the record [p], through records only, ends at
    the value [c], which is not a record (it may be [null]). *)
Inductive fallback_chain : value -> value -> Prop :=
| chain_last (p c : value) :
    is_custom_prop p = true ->
    map_get p "fallback" = Ok c ->
    is_custom_prop c = false ->
    fallback_chain p c
| chain_link (p q c : value) :
    is_custom_prop p = true ->
    map_get p "fallback" = Ok q ->
    is_custom_prop q = true ->
    fallback_chain q c ->
    fallback_chain p c.

(** A record whose variable names, all along its fallback chain, are
    strings, as [string.slice] in [create] requires of them. *)
Inductive named_chain : value -> Prop :=
| named_last (p : value) (name : string) (c : value) :
    get_varname p = Ok (VStr name) ->
    map_get p "fallback" = Ok c ->
    is_custom_prop c = false ->
    named_chain p
| named_link (p : value) (name : string) (q : value) :
    get_varname p = Ok (VStr name) ->
    map_get p "fallback" = Ok q ->
    is_custom_prop q = true ->
    named_chain q ->
    named_chain p.

(** The name [create] gives a record: [$varname] itself when it starts
    with two dashes, and with the global prefix otherwise. *)
Definition created_name (name : string) : string :=
  if String.eqb (substring 0 2 name) "--"
  then name
  else "--" ++ _varname_prefix ++ "-" ++ name.

(** The [@error] of [declaration]: its message interpolates
    [$custom-prop], which Sass refuses for a value without CSS text. *)
Definition invalid_custom_property (custom_prop : value) : error :=
  match invalid_css custom_prop with
  | Some bad => NotACssValue bad
  | None => InvalidCustomProperty custom_prop
  end.

(** A record that [var()] can render: the names along its fallback chain
    and the value the chain ends in have a CSS text. *)
Inductive renderable : value -> Prop :=
| renderable_last (p name c : value) :
    is_custom_prop p = true ->
    get_varname p = Ok name ->
    invalid_css name = None ->
    map_get p "fallback" = Ok c ->
    is_custom_prop c = false ->
    invalid_css c = None ->
    renderable p
| renderable_link (p name q : value) :
    is_custom_prop p = true ->
    get_varname p = Ok name ->
    invalid_css name = None ->
    map_get p "fallback" = Ok q ->
    is_custom_prop q = true ->
    renderable q ->
    renderable p.

(** The mixin [declaration]: it reads [$_config] and adds to the style
    sheet.  [$custom-prop] defaults to [null], [$gss] to [()] and
    [$important] to [false]. *)
Definition declaration (config : smap)
    (property custom_prop gss important : value) : result (list Css.emitted) :=
  if truthy property then
    if is_custom_prop property then
      if truthy (assoc_get config "emit-custom-properties") then
        let custom_prop := property in
        property <- get_varname custom_prop ;;
        value_ <- get_fallback custom_prop true ;;
        value_ <- (if is_custom_prop value_
                   then create_var config value_
                   else Ok value_) ;;
        Ok (Css.declaration property value_ VNull gss important)
      else
        Ok (Css.declaration property VNull VNull gss important)
    else
      if negb (is_custom_prop custom_prop) then
        Error (invalid_custom_property custom_prop)
      else
        value_ <- get_declaration_value config custom_prop ;;
        fallback_value <- get_declaration_fallback config custom_prop ;;
        Ok (Css.declaration property value_ fallback_value gss important)
  else Ok [].

(** A mixin body run against the global [$_config]: it returns the
    configuration it leaves behind and the style sheet it has emitted. *)
Definition block : Type := smap -> result (smap * list Css.emitted).

(** The [@each] loop of [configure], which drops the null arguments. *)
Definition remove_nulls (keywords : smap) : smap :=
  fold_left
    (fun config kv =>
       if is_null (snd kv) then map_remove config (fst kv) else config)
    keywords keywords.

(** The mixin [configure].  [keywords] is [meta.keywords($config)];
    [content] is [None] when the mixin is included without a block. *)
Definition configure (keywords : smap) (content : option block) : block :=
  fun _config =>
    match content with
    | None => Error ContentRequired
    | Some content =>
        let config := remove_nulls keywords in
        if Nat.eqb (List.length config) 0 then content _config
        else
          let previous := _config in
          let _config := map_merge _config config in
          r <- content _config ;;
          let _config := previous in
          Ok (_config, snd r)
    end.

(** What a content block can do to this module: [$_config] is private to
    it, so a block reaches the configuration only by including the
    module's mixins, in sequence and nested. *)
Inductive stmt : Type :=
| IncludeDeclaration (property custom_prop gss important : value)
| IncludeConfigure (keywords : smap) (content : option (list stmt)).

Definition seq (first second : block) : block :=
  fun _config =>
    r1 <- first _config ;;
    r2 <- second (fst r1) ;;
    Ok (fst r2, (snd r1 ++ snd r2)%list).

Definition skip : block := fun _config => Ok (_config, []).

Fixpoint exec (s : stmt) : block :=
  match s with
  | IncludeDeclaration property custom_prop gss important =>
      fun _config =>
        css <- declaration _config property custom_prop gss important ;;
        Ok (_config, css)
  | IncludeConfigure keywords content =>
      configure keywords
        (match content with
         | None => None
         | Some body =>
             Some ((fix exec_all (body : list stmt) : block :=
                      match body with
                      | [] => skip
                      | s :: rest => seq (exec s) (exec_all rest)
                      end) body)
         end)
  end.

Fixpoint exec_all (body : list stmt) : block :=
  match body with
  | [] => skip
  | s :: rest => seq (exec s) (exec_all rest)
  end.

Lemma exec_configure (keywords : smap) (content : option (list stmt)) :
  exec (IncludeConfigure keywords content) =
  configure keywords (option_map exec_all content).
Proof. destruct content; reflexivity. Qed.

End CustomProperties.

(** ** The string-ext module *)

Module StringExt.

(** Modelled from the spec: the function [string-ext.has-suffix] of the
    module [./string-ext], which is not among the sources.  The validator
    uses it for its suffix exemption: it tells whether a token name ends
    with the given suffix. *)
Definition has_suffix (s suffix : string) : bool :=
  let n := String.length s in
  let k := String.length suffix in
  Nat.leb k n && String.eqb (substring (n - k) k s) suffix.

End StringExt.

(** ** packages/mdc-theme/_validate.scss *)

Module Validate.

(** [list.append($list, $val, $separator: comma)] *)
Definition list_append (l : list string) (val : string) : list string :=
  (l ++ [val])%list.

(** The interpolation [#{$tokens}] of a comma-separated list of names. *)
Definition interpolate (tokens : list string) : string :=
  String.concat ", " tokens.

(** The text of the two [@error] rules of the validator. *)
Definition error_message (e : error) : option string :=
  match e with
  | InvalidTokens unsupported_tokens =>
      Some ("The following tokens are invalid: "
              ++ interpolate unsupported_tokens ++ ".")
  | MissingTokens missing_tokens =>
      Some ("The following required tokens are missing: "
              ++ interpolate missing_tokens ++ ".")
  | _ => None
  end.

(** [$ignore-suffix] *)
Definition ignore_suffix : list string := ["-type"].

(** The first [@each] loop: the keys of the theme that are not valid. *)
Definition unsupported (valid_tokens : list string) (theme : smap)
  : list string :=
  fold_left
    (fun unsupported_tokens kv =>
       if list_index_is_null valid_tokens (fst kv)
       then list_append unsupported_tokens (fst kv)
       else unsupported_tokens)
    theme [].

(** The body of the second loop for one token: is it reported missing? *)
Definition is_missing (theme : smap) (token : string) : bool :=
  let missing := is_null (assoc_get theme token) in
  if missing
  then fold_left
         (fun missing suffix =>
            if StringExt.has_suffix token suffix then false else missing)
         ignore_suffix missing
  else missing.

(** The second [@each] loop, run when [$require-all] holds. *)
Definition missing (valid_tokens : list string) (theme : smap) : list string :=
  fold_left
    (fun missing_tokens token =>
       if is_missing theme token
       then list_append missing_tokens token
       else missing_tokens)
    valid_tokens [].

Definition _validate_theme_tokens (valid_tokens : list string) (theme : smap)
    (require_all : bool) : result smap :=
  let unsupported_tokens := unsupported valid_tokens theme in
  let missing_tokens :=
    if require_all then missing valid_tokens theme else [] in
  if Nat.ltb 0 (List.length unsupported_tokens)
  then Error (InvalidTokens unsupported_tokens)
  else if Nat.ltb 0 (List.length missing_tokens)
       then Error (MissingTokens missing_tokens)
       else Ok theme.

(** [theme-styles($reference-theme, $theme, $require-all: true)] *)
Definition theme_styles (reference_theme theme : smap) (require_all : bool)
  : result smap :=
  _validate_theme_tokens (map_keys reference_theme) theme require_all.

(** [theme($reference-theme, $theme)] *)
Definition theme (reference_theme theme : smap) : result smap :=
  _validate_theme_tokens (map_keys reference_theme) theme false.

End Validate.

(** ** packages/mdc-textfield/character-counter/foundation.ts *)

Module CharacterCounter.

(** [Number.MAX_SAFE_INTEGER] *)
Definition MAX_SAFE_INTEGER : Z := 2 ^ 53 - 1.

(** [Number.isSafeInteger]: the integers a number holds exactly, each of
    which a template literal writes with all its decimal digits.  The
    lengths of a text field are among them. *)
Definition safe_integer (n : Z) : Prop :=
  (- MAX_SAFE_INTEGER <= n <= MAX_SAFE_INTEGER)%Z.

(** The two callbacks of [MDCTextFieldCharacterCounterAdapter], acting on
    the state of the page.  Lengths are integer-valued numbers. *)
Record MDCTextFieldCharacterCounterAdapter (dom : Type) : Type := {
  setContent : string -> dom -> dom;
  adapter_setCounterValue : Z -> Z -> dom -> dom
}.
Arguments setContent {dom} _ _ _.
Arguments adapter_setCounterValue {dom} _ _ _ _.

(** The text a template literal gives a safe integer: its decimal digits,
    with a minus sign when negative.  Numbers beyond the safe integers,
    which a template literal rounds to seventeen digits and from [1e21]
    on writes with an exponent, are not lengths, and their text is outside
    this embedding. *)
Definition number_to_string (n : Z) : string :=
  NilZero.string_of_int (Z.to_int n).

(** [MDCTextFieldCharacterCounterFoundation.setCounterValue] *)
Definition setCounterValue {dom : Type}
    (adapter : MDCTextFieldCharacterCounterAdapter dom)
    (currentLength maxLength : Z) : dom -> dom :=
  fun page =>
    let currentLength := Z.min currentLength maxLength in
    let page :=
      setContent adapter
        (number_to_string currentLength ++ " / " ++ number_to_string maxLength)
        page in
    adapter_setCounterValue adapter currentLength maxLength page.

(** An adapter that records the calls it receives, in order. *)
Inductive call : Type :=
| SetContent (content : string)
| SetCounterValue (currentLength maxLength : Z).

Definition recorder : MDCTextFieldCharacterCounterAdapter (list call) := {|
  setContent content log := (log ++ [SetContent content])%list;
  adapter_setCounterValue currentLength maxLength log :=
    (log ++ [SetCounterValue currentLength maxLength])%list
|}.

(** Does the character occur in the string? *)
Fixpoint occurs (c : ascii) (s : string) : bool :=
  match s with
  | EmptyString => false
  | String c' rest => Ascii.eqb c' c || occurs c rest
  end.

(** A string with neither a space nor a slash. *)
Definition no_separator (s : string) : Prop :=
  occurs " " s = false /\ occurs "/" s = false.

(** [defaultAdapter]: both callbacks do nothing. *)
Definition defaultAdapter {dom : Type} : MDCTextFieldCharacterCounterAdapter dom := {|
  setContent _ page := page;
  adapter_setCounterValue _ _ page := page
|}.

End CharacterCounter.

(** * Properties *)

(** ** Custom properties: fallback chains *)

Module CustomPropertiesSpec.
Import CustomProperties.

Lemma is_custom_prop_map (p : value) :
  is_custom_prop p = true -> exists m, p = VMap m.
Proof.
  destruct p; simpl; try discriminate. intros _. eexists; reflexivity.
Qed.

Lemma custom_prop_map_get (p : value) (key : string) :
  is_custom_prop p = true -> exists v, map_get p key = Ok v.
Proof.
  intros H. destruct (is_custom_prop_map p H) as [m ->].
  eexists; reflexivity.
Qed.

(** Every record has a chain, and it ends: values are finite. *)
Lemma fallback_chain_total (p : value) :
  is_custom_prop p = true -> exists c, fallback_chain p c.
Proof.
  remember (size p) as n eqn:Hn. revert p Hn.
  induction n as [n IH] using lt_wf_ind. intros p Hn Hp.
  destruct (custom_prop_map_get p "fallback" Hp) as [fb Hfb].
  destruct (is_custom_prop fb) eqn:Hrec.
  - destruct (IH (size fb)) with (p := fb) as [c Hc]; auto.
    + subst n. eapply map_get_size; eauto.
    + exists c. eapply chain_link; eauto.
  - exists fb. apply chain_last; auto.
Qed.

Lemma fallback_chain_end (p c : value) :
  fallback_chain p c -> is_custom_prop c = false.
Proof. induction 1; auto. Qed.

Lemma fallback_chain_unique (p c c' : value) :
  fallback_chain p c -> fallback_chain p c' -> c = c'.
Proof.
  intros H. revert c'. induction H; intros c' H'; inversion H'; subst;
    try congruence.
  assert (q = q0) by congruence. subst. auto.
Qed.

Lemma get_fallback_deep (p c : value) :
  fallback_chain p c -> get_fallback p false = Ok c.
Proof.
  induction 1 as [p c Hp Hget Hc | p q c Hp Hget Hq Hchain IH];
    rewrite get_fallback_eq, Hget; simpl.
  - rewrite Hc. reflexivity.
  - rewrite Hq. simpl. exact IH.
Qed.

(** C1. For a custom property record whose fallback chain runs through
    records and ends in the non-record value [c], [get-fallback] with the
    default flag returns [c]; with the shallow flag it returns the
    record's own first fallback. *)
Theorem get_fallback_chain (p c : value) :
  fallback_chain p c ->
  get_fallback p false = Ok c /\
  exists first,
    map_get p "fallback" = Ok first /\ get_fallback p true = Ok first.
Proof.
  intros H. split.
  - apply get_fallback_deep; assumption.
  - assert (Hp : is_custom_prop p = true) by (inversion H; assumption).
    destruct (custom_prop_map_get p "fallback" Hp) as [first Hfirst].
    exists first. split; [assumption|].
    rewrite get_fallback_shallow. assumption.
Qed.

(** The chain A -> B -> C of the specification, built with [create]. *)
Definition chain_C : value := VStr "teal".
Definition chain_B : value :=
  VMap [("varname", VStr "--b"); ("fallback", chain_C)].
Definition chain_A : value :=
  VMap [("varname", VStr "--a"); ("fallback", chain_B)].

Lemma chain_A_created :
  create (VStr "--b") chain_C = Ok chain_B /\
  create (VStr "--a") chain_B = Ok chain_A.
Proof. split; reflexivity. Qed.

Lemma chain_A_to_C : fallback_chain chain_A chain_C.
Proof.
  eapply chain_link with (q := chain_B); try reflexivity.
  apply chain_last; reflexivity.
Defined.

Lemma get_fallback_chain_witness :
  fallback_chain chain_A chain_C /\
  get_fallback chain_A false = Ok chain_C /\
  exists first,
    map_get chain_A "fallback" = Ok first /\
    get_fallback chain_A true = Ok first.
Proof.
  split; [exact chain_A_to_C|].
  apply (get_fallback_chain chain_A chain_C). exact chain_A_to_C.
Defined.

(** ** Custom properties: emission switched off *)

Lemma create_var_disabled (config : smap) (p : value) :
  truthy (assoc_get config "emit-custom-properties") = false ->
  create_var config p = get_fallback p false.
Proof.
  intros H. rewrite create_var_eq, H. reflexivity.
Qed.

(** C2. When the switch [emit-custom-properties] is off, [create-var], and
    so [get-declaration-value], gives for a custom property record the
    value its fallback chain ends in, not a [var()] call; that value is
    [null] when the record has no fallback. *)
Theorem create_var_emission_disabled (config : smap) (p : value) :
  is_custom_prop p = true ->
  truthy (assoc_get config "emit-custom-properties") = false ->
  exists c,
    fallback_chain p c /\
    create_var config p = Ok c /\
    get_declaration_value config p = Ok c /\
    (map_get p "fallback" = Ok VNull -> c = VNull).
Proof.
  intros Hp Hoff.
  destruct (fallback_chain_total p Hp) as [c Hc].
  exists c. unfold get_declaration_value.
  rewrite (create_var_disabled config p Hoff), (get_fallback_deep p c Hc).
  repeat split; auto.
  intros Hnull. apply (fallback_chain_unique p c VNull Hc).
  apply chain_last; auto.
Qed.

Definition config_disabled : smap :=
  map_merge default_config [("emit-custom-properties", VBool false)].

Definition no_fallback : value :=
  VMap [("varname", VStr "--a"); ("fallback", VNull)].

Lemma create_var_emission_disabled_witness :
  is_custom_prop chain_A = true /\
  truthy (assoc_get config_disabled "emit-custom-properties") = false /\
  exists c,
    fallback_chain chain_A c /\
    create_var config_disabled chain_A = Ok c /\
    get_declaration_value config_disabled chain_A = Ok c /\
    (map_get chain_A "fallback" = Ok VNull -> c = VNull).
Proof.
  split; [reflexivity|]. split; [reflexivity|].
  apply (create_var_emission_disabled config_disabled chain_A); reflexivity.
Defined.

(** With emission off the [declaration] mixin hands [css.declaration] the
    end of the chain as the value, and no fallback value. *)
Lemma declaration_emission_disabled (config : smap)
    (property p c gss important : value) :
  truthy (assoc_get config "emit-custom-properties") = false ->
  truthy property = true ->
  is_custom_prop property = false ->
  fallback_chain p c ->
  declaration config property p gss important
  = Ok [Css.Emit property c VNull gss important].
Proof.
  intros Hoff Htruthy Hname Hc.
  assert (Hp : is_custom_prop p = true) by (inversion Hc; assumption).
  unfold declaration, get_declaration_value, get_declaration_fallback.
  rewrite Htruthy, Hname, Hp, (create_var_disabled config p Hoff),
    (get_fallback_deep p c Hc), Hoff.
  reflexivity.
Qed.

Example create_var_disabled_literal :
  create_var config_disabled chain_A = Ok (VStr "teal").
Proof. reflexivity. Qed.

Example create_var_disabled_null :
  create_var config_disabled no_fallback = Ok VNull.
Proof. reflexivity. Qed.

Example create_var_enabled :
  create_var default_config chain_A =
  Ok (VCall "var" [VStr "--a"; VCall "var" [VStr "--b"; VStr "teal"]]).
Proof. reflexivity. Qed.

(** ** Custom properties: the declaration mixin *)

Lemma get_fallback_total (p : value) (shallow : bool) :
  is_custom_prop p = true -> exists v, get_fallback p shallow = Ok v.
Proof.
  intros Hp. destruct shallow.
  - rewrite get_fallback_shallow. apply custom_prop_map_get; assumption.
  - destruct (fallback_chain_total p Hp) as [c Hc].
    exists c. apply get_fallback_deep; assumption.
Qed.

(** A plain CSS call whose arguments all have a CSS text is the unquoted
    string of the call. *)
Lemma plain_css_call_valid (name : string) (args checked : list value) :
  Forall (fun a => invalid_css a = None) checked ->
  plain_css_call name args checked = Ok (VCall name args).
Proof.
  induction 1 as [|x rest Hx _ IH]; simpl; [reflexivity|].
  rewrite Hx. exact IH.
Qed.

Lemma plain_css_call_result (name : string) (args checked : list value)
    (v : value) :
  plain_css_call name args checked = Ok v -> v = VCall name args.
Proof.
  induction checked as [|x rest IH]; simpl.
  - intros H. inversion H. reflexivity.
  - destruct (invalid_css x); [discriminate|exact IH].
Qed.

Lemma plain_css_call_error (name : string) (args checked : list value)
    (e : error) :
  plain_css_call name args checked = Error e ->
  exists bad, e = NotACssValue bad.
Proof.
  induction checked as [|x rest IH]; simpl; [discriminate|].
  destruct (invalid_css x) as [bad|]; [|exact IH].
  intros H. inversion H. exists bad. reflexivity.
Qed.

Lemma var_valid (args : list value) :
  Forall (fun a => invalid_css a = None) args ->
  var args = Ok (VCall "var" args).
Proof. apply plain_css_call_valid. Qed.

Ltac valid_args :=
  repeat (apply Forall_cons; [assumption|]); apply Forall_nil.

(** On a record that [var()] can render, [create-var] returns a value, and
    one with a CSS text. *)
Lemma create_var_renderable (config : smap) (p : value) :
  renderable p ->
  exists v, create_var config p = Ok v /\ invalid_css v = None.
Proof.
  induction 1 as [p name c Hp Hname Hvalid Hfb Hc Hend
                 | p name q Hp Hname Hvalid Hfb Hq Hchain IH];
    rewrite create_var_eq.
  - destruct (negb (truthy (assoc_get config "emit-custom-properties"))).
    + exists c. split; [|assumption].
      apply get_fallback_deep, chain_last; assumption.
    + rewrite Hname, get_fallback_shallow, Hfb. simpl. rewrite Hc. simpl.
      destruct (truthy c && true
                && truthy (assoc_get config "emit-fallback-values")).
      * rewrite var_valid by valid_args.
        eexists. split; reflexivity.
      * rewrite var_valid by valid_args.
        eexists. split; reflexivity.
  - destruct IH as (inner & Hinner & Hinner_valid).
    destruct (negb (truthy (assoc_get config "emit-custom-properties")))
      eqn:Hoff.
    + exists inner. split; [|assumption].
      rewrite get_fallback_eq, Hfb. simpl. rewrite Hq. simpl.
      rewrite create_var_eq, Hoff in Hinner. exact Hinner.
    + rewrite Hname, get_fallback_shallow, Hfb. simpl. rewrite Hq. simpl.
      destruct (truthy (assoc_get config "emit-fallback-vars")).
      * rewrite Hinner. simpl.
        rewrite var_valid by valid_args.
        eexists. split; reflexivity.
      * rewrite (andb_false_r (truthy q)). simpl.
        rewrite var_valid by valid_args.
        eexists. split; reflexivity.
Qed.

(** On a record, [create-var] fails only where [var()] does. *)
Lemma create_var_error (config : smap) (p : value) (e : error) :
  is_custom_prop p = true ->
  create_var config p = Error e ->
  exists bad, e = NotACssValue bad.
Proof.
  remember (size p) as n eqn:Hn. revert p e Hn.
  induction n as [n IH] using lt_wf_ind. intros p e Hn Hp.
  rewrite create_var_eq.
  destruct (negb (truthy (assoc_get config "emit-custom-properties"))).
  - destruct (get_fallback_total p false Hp) as [v Hv]. rewrite Hv.
    discriminate.
  - destruct (custom_prop_map_get p "varname" Hp) as [name Hname].
    destruct (custom_prop_map_get p "fallback" Hp) as [fb Hfb].
    unfold get_varname. rewrite Hname, get_fallback_shallow, Hfb. simpl.
    destruct (is_custom_prop fb && truthy (assoc_get config "emit-fallback-vars"))
      eqn:Hvars.
    + apply andb_true_iff in Hvars. destruct Hvars as [Hrec _].
      destruct (create_var config fb) as [inner|e'] eqn:Hinner; simpl.
      * apply plain_css_call_error.
      * intros H. inversion H; subst e'.
        apply (IH (size fb)) with (p := fb); auto.
        subst n. eapply map_get_size; eauto.
    + match goal with |- context [if ?b then _ else _] => destruct b end;
        apply plain_css_call_error.
Qed.

Lemma get_declaration_fallback_total (config : smap) (p : value) :
  is_custom_prop p = true ->
  exists v, get_declaration_fallback config p = Ok v.
Proof.
  intros Hp. unfold get_declaration_fallback.
  match goal with |- context [if ?b then _ else _] => destruct b end.
  - eexists; reflexivity.
  - apply get_fallback_total; assumption.
Qed.

Lemma renderable_record (p : value) :
  renderable p -> is_custom_prop p = true.
Proof. destruct 1; assumption. Qed.

(** C8, as amended.  Included with a property name that is truthy (so not
    [null]) and not itself a record, the [declaration] mixin raises an
    error whenever [$custom-prop] is not a custom property record: its
    own 'Invalid custom property', or that of Sass when the value cannot
    be interpolated into that message.  On a record whose names and final
    fallback value have a CSS text it raises none and emits one
    declaration, whose value is that of [get-declaration-value]; on any
    record, the only error is that of Sass for a value [var()] cannot
    render. *)
Theorem declaration_errors (config : smap)
    (property custom_prop gss important : value) :
  truthy property = true ->
  is_custom_prop property = false ->
  (is_custom_prop custom_prop = false ->
   declaration config property custom_prop gss important
   = Error (invalid_custom_property custom_prop)) /\
  (renderable custom_prop ->
   exists value_ fallback_value,
     get_declaration_value config custom_prop = Ok value_ /\
     get_declaration_fallback config custom_prop = Ok fallback_value /\
     declaration config property custom_prop gss important
     = Ok [Css.Emit property value_ fallback_value gss important]) /\
  (is_custom_prop custom_prop = true ->
   forall e,
     declaration config property custom_prop gss important = Error e ->
     exists bad, e = NotACssValue bad).
Proof.
  intros Htruthy Hname. split; [|split].
  - intros H. unfold declaration. rewrite Htruthy, Hname, H. reflexivity.
  - intros Hr. pose proof (renderable_record _ Hr) as H.
    destruct (create_var_renderable config custom_prop Hr) as (v & Hv & _).
    destruct (get_declaration_fallback_total config custom_prop H) as [fb Hfb].
    exists v, fb. unfold declaration, get_declaration_value.
    rewrite Htruthy, Hname, H, Hv, Hfb. repeat split; reflexivity.
  - intros H e. unfold declaration, get_declaration_value.
    rewrite Htruthy, Hname, H. simpl.
    destruct (create_var config custom_prop) as [v|e'] eqn:Hv; simpl.
    + destruct (get_declaration_fallback_total config custom_prop H)
        as [fb Hfb].
      rewrite Hfb. discriminate.
    + intros He. inversion He; subst e'.
      exact (create_var_error config custom_prop e H Hv).
Qed.

Lemma chain_A_renderable : renderable chain_A.
Proof.
  eapply renderable_link with (q := chain_B); try reflexivity.
  eapply renderable_last; reflexivity.
Defined.

Lemma declaration_errors_witness :
  truthy (VStr "color") = true /\
  is_custom_prop (VStr "color") = false /\
  declaration default_config (VStr "color") VNull (VList []) (VBool false)
  = Error (InvalidCustomProperty VNull) /\
  declaration default_config (VStr "color") (VList []) (VList []) (VBool false)
  = Error (NotACssValue (VList [])) /\
  exists value_ fallback_value,
    get_declaration_value default_config chain_A = Ok value_ /\
    get_declaration_fallback default_config chain_A = Ok fallback_value /\
    declaration default_config (VStr "color") chain_A (VList []) (VBool false)
    = Ok [Css.Emit (VStr "color") value_ fallback_value
            (VList []) (VBool false)].
Proof.
  split; [reflexivity|]. split; [reflexivity|].
  split; [reflexivity|]. split; [reflexivity|].
  destruct (declaration_errors default_config (VStr "color") chain_A
              (VList []) (VBool false) eq_refl eq_refl) as [_ [Hgood _]].
  exact (Hgood chain_A_renderable).
Defined.

(** A record, by [is-custom-prop], whose fallback is the empty list:
    [var()] cannot render it, and the mixin fails. *)
Definition empty_fallback : value :=
  VMap [("varname", VStr "--a"); ("fallback", VList [])].

Lemma declaration_fails_on_record :
  truthy (VStr "color") = true /\
  is_custom_prop (VStr "color") = false /\
  is_custom_prop empty_fallback = true /\
  declaration default_config (VStr "color") empty_fallback
    (VList []) (VBool false)
  = Error (NotACssValue (VList [])) /\
  is_error (declaration default_config (VStr "color") empty_fallback
              (VList []) (VBool false)) = true.
Proof. repeat split; reflexivity. Qed.

Example declaration_doc_example :
  declaration default_config (VStr "color") chain_B (VList []) (VBool false)
  = Ok [Css.Emit (VStr "color") (VCall "var" [VStr "--b"; VStr "teal"])
          (VStr "teal") (VList []) (VBool false)].
Proof. reflexivity. Qed.

(** ** Custom properties: set-fallback *)

Lemma create_string (name : string) (fallback : value) :
  create (VStr name) fallback =
  Ok (VMap [("varname", VStr (created_name name)); ("fallback", fallback)]).
Proof.
  unfold create, created_name, string_slice. simpl.
  destruct (String.eqb (substring 0 2 name) "--"); reflexivity.
Qed.

Lemma created_name_dashes (name : string) :
  substring 0 2 name = "--" -> created_name name = name.
Proof. unfold created_name. intros ->. reflexivity. Qed.

Lemma set_fallback_shallow (p v : value) (name : string) :
  get_varname p = Ok (VStr name) ->
  set_fallback p v true =
  Ok (VMap [("varname", VStr (created_name name)); ("fallback", v)]).
Proof.
  intros Hname. rewrite set_fallback_eq, Hname. simpl.
  rewrite get_fallback_shallow.
  unfold get_varname, map_get in *.
  destruct (as_map p); [|discriminate]. simpl.
  rewrite andb_false_r. simpl. apply create_string.
Qed.

(** Deep [set-fallback] rebuilds the chain, record by record, around the
    new value. *)
Lemma set_fallback_deep (p v : value) :
  named_chain p -> is_custom_prop v = false ->
  exists name fallback,
    get_varname p = Ok (VStr name) /\
    set_fallback p v false =
    Ok (VMap [("varname", VStr (created_name name)); ("fallback", fallback)])
    /\
    fallback_chain
      (VMap [("varname", VStr (created_name name)); ("fallback", fallback)]) v.
Proof.
  intros Hchain Hv.
  induction Hchain as [p name c Hname Hfb Hc
                      | p name q Hname Hfb Hq Hchain IH].
  - exists name, v. split; [assumption|].
    rewrite set_fallback_eq, Hname, get_fallback_shallow, Hfb. simpl.
    rewrite Hc. simpl. split; [apply create_string|].
    apply chain_last; [reflexivity | reflexivity | assumption].
  - destruct IH as (name' & fb' & _ & Hset & Hinner).
    exists name, (VMap [("varname", VStr (created_name name'));
                        ("fallback", fb')]).
    split; [assumption|].
    rewrite set_fallback_eq, Hname, get_fallback_shallow, Hfb. simpl.
    rewrite Hq. simpl. rewrite Hset. simpl.
    split; [apply create_string|].
    assert (Hrec : is_custom_prop
                     (VMap [("varname", VStr (created_name name'));
                            ("fallback", fb')]) = true) by reflexivity.
    eapply chain_link; [reflexivity | reflexivity | exact Hrec | exact Hinner].
Qed.

(** C10, as amended.  For a record [p] whose variable names along the
    chain are strings, and a value [v] that is not a record,
    [get-fallback(set-fallback(p, v))] is [v]; and for either value of the
    shallow flag the name of [set-fallback(p, v, $shallow)] is the name
    [create] gives: that of [p] when it starts with two dashes, and with
    the prefix [--mdc-] put before it otherwise. *)
Theorem set_fallback_get_fallback (p v : value) :
  named_chain p ->
  is_custom_prop v = false ->
  (exists p',
     set_fallback p v false = Ok p' /\ get_fallback p' false = Ok v) /\
  (forall shallow, exists p' name,
     set_fallback p v shallow = Ok p' /\
     get_varname p = Ok (VStr name) /\
     get_varname p' = Ok (VStr (created_name name)) /\
     (substring 0 2 name = "--" -> get_varname p' = get_varname p)).
Proof.
  intros Hchain Hv.
  destruct (set_fallback_deep p v Hchain Hv) as (name & fb & Hname & Hset & Hc).
  split.
  - eexists. split; [exact Hset|]. apply get_fallback_deep; assumption.
  - intros [|].
    + eexists; exists name. rewrite (set_fallback_shallow p v name Hname).
      repeat split; auto.
      intros Hd. rewrite Hname, (created_name_dashes name Hd). reflexivity.
    + eexists; exists name. rewrite Hset. repeat split; auto.
      intros Hd. rewrite Hname, (created_name_dashes name Hd). reflexivity.
Qed.

Lemma chain_A_named : named_chain chain_A.
Proof.
  eapply named_link with (q := chain_B); try reflexivity.
  eapply named_last; reflexivity.
Defined.

Lemma set_fallback_get_fallback_witness :
  named_chain chain_A /\
  is_custom_prop (VStr "red") = false /\
  (exists p',
     set_fallback chain_A (VStr "red") false = Ok p' /\
     get_fallback p' false = Ok (VStr "red")) /\
  (forall shallow, exists p' name,
     set_fallback chain_A (VStr "red") shallow = Ok p' /\
     get_varname chain_A = Ok (VStr name) /\
     get_varname p' = Ok (VStr (created_name name)) /\
     (substring 0 2 name = "--" -> get_varname p' = get_varname chain_A)).
Proof.
  split; [exact chain_A_named|]. split; [reflexivity|].
  apply (set_fallback_get_fallback chain_A (VStr "red"));
    [exact chain_A_named | reflexivity].
Defined.

(** A record that [is-custom-prop] accepts, with a name that has no
    dashes: [set-fallback] does not keep the name. *)
Definition plain_record : value :=
  VMap [("varname", VStr "foo"); ("fallback", VNull)].

Lemma set_fallback_renames :
  is_custom_prop plain_record = true /\
  fallback_chain plain_record VNull /\
  is_custom_prop (VStr "teal") = false /\
  (forall shallow,
     set_fallback plain_record (VStr "teal") shallow =
     Ok (VMap [("varname", VStr "--mdc-foo"); ("fallback", VStr "teal")])) /\
  ~ (exists p',
       set_fallback plain_record (VStr "teal") false = Ok p' /\
       get_varname p' = get_varname plain_record).
Proof.
  split; [reflexivity|]. split; [apply chain_last; reflexivity|].
  split; [reflexivity|]. split; [intros [|]; reflexivity|].
  intros (p' & Hset & Hname).
  change (set_fallback plain_record (VStr "teal") false)
    with (Ok (VMap [("varname", VStr "--mdc-foo"); ("fallback", VStr "teal")]))
    in Hset.
  inversion Hset; subst p'. discriminate Hname.
Qed.

(** ** Custom properties: the scope of configure *)

Section StmtInduction.

Variable P : stmt -> Prop.

Hypothesis Hdeclaration :
  forall property custom_prop gss important,
    P (IncludeDeclaration property custom_prop gss important).

Hypothesis Hno_content : forall keywords, P (IncludeConfigure keywords None).

Hypothesis Hcontent :
  forall keywords body,
    Forall P body -> P (IncludeConfigure keywords (Some body)).

Fixpoint stmt_induction (s : stmt) : P s :=
  match s with
  | IncludeDeclaration property custom_prop gss important =>
      Hdeclaration property custom_prop gss important
  | IncludeConfigure keywords None => Hno_content keywords
  | IncludeConfigure keywords (Some body) =>
      Hcontent keywords body
        ((fix all (l : list stmt) : Forall P l :=
            match l with
            | [] => Forall_nil P
            | s :: rest => Forall_cons s (stmt_induction s) (all rest)
            end) body)
  end.

End StmtInduction.

(** A block that leaves [$_config] as it found it. *)
Definition preserves_config (b : block) : Prop :=
  forall config config' css, b config = Ok (config', css) -> config' = config.

Lemma skip_preserves : preserves_config skip.
Proof. intros config config' css H. inversion H. reflexivity. Qed.

Lemma seq_preserves (first second : block) :
  preserves_config first -> preserves_config second ->
  preserves_config (seq first second).
Proof.
  intros H1 H2 config config' css. unfold seq.
  destruct (first config) as [[c1 o1]|] eqn:E1; simpl; [|discriminate].
  destruct (second c1) as [[c2 o2]|] eqn:E2; simpl; [|discriminate].
  intros H. inversion H; subst.
  apply H1 in E1. apply H2 in E2. congruence.
Qed.

(** With at least one switch given, [configure] puts the saved map back,
    whatever the content did to it. *)
Lemma configure_restores_previous (keywords : smap) (content : block) :
  remove_nulls keywords <> [] ->
  preserves_config (configure keywords (Some content)).
Proof.
  intros Hne config config' css. unfold configure.
  destruct (remove_nulls keywords) as [|kv rest]; [congruence|]. simpl.
  destruct (content _) as [[c o]|]; simpl; [|discriminate].
  intros H. inversion H. reflexivity.
Qed.

Lemma configure_preserves (keywords : smap) (content : block) :
  preserves_config content ->
  preserves_config (configure keywords (Some content)).
Proof.
  intros Hcontent.
  destruct (remove_nulls keywords) as [|kv rest] eqn:E.
  - intros config config' css. unfold configure. rewrite E. simpl.
    apply Hcontent.
  - apply configure_restores_previous. rewrite E. discriminate.
Qed.

Lemma exec_all_preserves (body : list stmt) :
  Forall (fun s => preserves_config (exec s)) body ->
  preserves_config (exec_all body).
Proof.
  induction 1; simpl.
  - apply skip_preserves.
  - apply seq_preserves; assumption.
Qed.

Lemma exec_preserves (s : stmt) : preserves_config (exec s).
Proof.
  induction s as [property custom_prop gss important | keywords
                 | keywords body IH] using stmt_induction.
  - intros config config' css. simpl.
    destruct (declaration _ _ _ _ _); simpl; [|discriminate].
    intros H. inversion H. reflexivity.
  - intros config config' css. simpl. discriminate.
  - rewrite exec_configure. simpl.
    apply configure_preserves, exec_all_preserves, IH.
Qed.

Lemma body_preserves (body : list stmt) : preserves_config (exec_all body).
Proof.
  apply exec_all_preserves, Forall_forall. intros s _. apply exec_preserves.
Qed.

(** C7. When an include of [configure] finishes, [$_config] is what it
    was before the include: its content block ran under the merged
    configuration, and that one did not outlive the block. *)
Theorem configure_restores_config (keywords : smap) (body : list stmt)
    (config config' : smap) (css : list Css.emitted) :
  configure keywords (Some (exec_all body)) config = Ok (config', css) ->
  config' = config /\
  exec_all body (map_merge config (remove_nulls keywords))
  = Ok (map_merge config (remove_nulls keywords), css).
Proof.
  intros H. split.
  - exact (configure_preserves keywords (exec_all body)
             (body_preserves body) config config' css H).
  - unfold configure in H.
    destruct (remove_nulls keywords) as [|kv rest].
    + change (exec_all body config = Ok (config', css)) in H.
      change (map_merge config []) with config.
      rewrite H. rewrite (body_preserves body _ _ _ H). reflexivity.
    + change (Nat.eqb (List.length (kv :: rest)) 0) with false in H.
      cbv beta iota zeta in H.
      destruct (exec_all body (map_merge config (kv :: rest)))
        as [[c o]|] eqn:E; [|discriminate].
      change (Ok (config, o) = Ok (config', css)) in H.
      inversion H; subst.
      rewrite (body_preserves body _ _ _ E). reflexivity.
Qed.

(** A block that turns fallback values off around one declaration, inside
    a block that emits another. *)
Definition no_fallback_values : smap := [("emit-fallback-values", VBool false)].

Definition nested_body : list stmt :=
  [ IncludeConfigure no_fallback_values
      (Some [IncludeDeclaration (VStr "color") chain_A (VList []) (VBool false)]);
    IncludeDeclaration (VStr "color") chain_A (VList []) (VBool false) ].

Definition nested_css : list Css.emitted :=
  [ Css.Emit (VStr "color") (VStr "teal") VNull (VList []) (VBool false);
    Css.Emit (VStr "color") (VStr "teal") VNull (VList []) (VBool false) ].

Lemma configure_restores_config_witness :
  configure [("emit-custom-properties", VBool false)]
    (Some (exec_all nested_body)) default_config
  = Ok (default_config, nested_css) /\
  default_config = default_config /\
  exec_all nested_body config_disabled = Ok (config_disabled, nested_css).
Proof.
  split; [reflexivity|].
  apply (configure_restores_config [("emit-custom-properties", VBool false)]
           nested_body default_config default_config nested_css).
  reflexivity.
Defined.

Example configure_inner_scope :
  exec_all nested_body default_config
  = Ok (default_config,
        [ Css.Emit (VStr "color")
            (VCall "var" [VStr "--a"; VCall "var" [VStr "--b"]]) VNull
            (VList []) (VBool false);
          Css.Emit (VStr "color")
            (VCall "var" [VStr "--a"; VCall "var" [VStr "--b"; VStr "teal"]])
            (VStr "teal")
            (VList []) (VBool false) ]).
Proof. reflexivity. Qed.

Example configure_without_content :
  configure no_fallback_values None default_config = Error ContentRequired.
Proof. reflexivity. Qed.

End CustomPropertiesSpec.

(** ** Theme validation *)

Module ValidateSpec.
Import Validate.

Lemma list_index_is_null_spec (l : list string) (x : string) :
  list_index_is_null l x = true <-> ~ In x l.
Proof.
  unfold list_index_is_null. rewrite negb_true_iff.
  split.
  - intros Hex Hin.
    assert (existsb (String.eqb x) l = true) as Htrue.
    { apply existsb_exists. exists x. split; [assumption|apply String.eqb_refl]. }
    congruence.
  - intros Hnot. destruct (existsb (String.eqb x) l) eqn:E; [|reflexivity].
    apply existsb_exists in E. destruct E as (y & Hy & Heq).
    apply String.eqb_eq in Heq. subst y. contradiction.
Qed.

(** An [@each] loop that appends the chosen names is a filter. *)
Lemma append_loop {A : Type} (keep : A -> bool) (name : A -> string)
    (l : list A) (acc : list string) :
  fold_left
    (fun acc x => if keep x then list_append acc (name x) else acc) l acc
  = (acc ++ map name (filter keep l))%list.
Proof.
  revert acc. induction l as [|x l IH]; intros acc; simpl.
  - rewrite app_nil_r. reflexivity.
  - rewrite IH. destruct (keep x); simpl; [|reflexivity].
    unfold list_append. rewrite <- app_assoc. reflexivity.
Qed.

Lemma unsupported_filter (valid_tokens : list string) (theme : smap) :
  unsupported valid_tokens theme =
  map fst (filter (fun kv => list_index_is_null valid_tokens (fst kv)) theme).
Proof. unfold unsupported. rewrite append_loop. reflexivity. Qed.

Lemma unsupported_spec (valid_tokens : list string) (theme : smap)
    (k : string) :
  In k (unsupported valid_tokens theme) <->
  In k (map_keys theme) /\ ~ In k valid_tokens.
Proof.
  rewrite unsupported_filter. unfold map_keys. rewrite !in_map_iff.
  split.
  - intros ([k' v] & Hk & Hin). simpl in Hk. subst k'.
    apply filter_In in Hin. destruct Hin as [Hin Hnull]. simpl in Hnull.
    split.
    + exists (k, v). split; [reflexivity|assumption].
    + apply list_index_is_null_spec. assumption.
  - intros [([k' v] & Hk & Hin) Hnot]. simpl in Hk. subst k'.
    exists (k, v). split; [reflexivity|].
    apply filter_In. split; [assumption|].
    apply list_index_is_null_spec. assumption.
Qed.

Lemma is_missing_eq (theme : smap) (token : string) :
  is_missing theme token =
  is_null (assoc_get theme token) && negb (StringExt.has_suffix token "-type").
Proof.
  unfold is_missing, ignore_suffix. simpl.
  destruct (is_null (assoc_get theme token)); simpl; [|reflexivity].
  destruct (StringExt.has_suffix token "-type"); reflexivity.
Qed.

Lemma is_null_spec (v : value) : is_null v = true <-> v = VNull.
Proof. destruct v; simpl; split; congruence. Qed.

Lemma is_missing_spec (theme : smap) (token : string) :
  is_missing theme token = true <->
  assoc_get theme token = VNull /\ StringExt.has_suffix token "-type" = false.
Proof.
  rewrite is_missing_eq, andb_true_iff, negb_true_iff, is_null_spec.
  reflexivity.
Qed.

Lemma missing_filter (valid_tokens : list string) (theme : smap) :
  missing valid_tokens theme = filter (is_missing theme) valid_tokens.
Proof.
  unfold missing.
  rewrite (append_loop (is_missing theme) (fun token => token)).
  rewrite map_id. reflexivity.
Qed.

Lemma missing_spec (valid_tokens : list string) (theme : smap)
    (token : string) :
  In token (missing valid_tokens theme) <->
  In token valid_tokens /\ assoc_get theme token = VNull
  /\ StringExt.has_suffix token "-type" = false.
Proof.
  rewrite missing_filter, filter_In, is_missing_spec. reflexivity.
Qed.

Lemma nil_no_member {A : Type} (l : list A) :
  (forall x, ~ In x l) -> l = [].
Proof.
  destruct l as [|x l]; [reflexivity|].
  intros H. exfalso. apply (H x). left. reflexivity.
Qed.

Lemma unsupported_nil (valid_tokens : list string) (theme : smap) :
  (forall k, In k (map_keys theme) -> In k valid_tokens) ->
  unsupported valid_tokens theme = [].
Proof.
  intros H. apply nil_no_member. intros k Hk.
  apply unsupported_spec in Hk. destruct Hk as [Hin Hnot]. auto.
Qed.

(** C3. A theme whose keys are all keys of the reference theme, and which
    (when all tokens are required) gives every reference key a value that
    is not null, is validated and returned as it is. *)
Theorem theme_styles_accepts (reference_theme theme : smap)
    (require_all : bool) :
  (forall k, In k (map_keys theme) -> In k (map_keys reference_theme)) ->
  (require_all = true ->
   forall k, In k (map_keys reference_theme) ->
             In k (map_keys theme) /\ assoc_get theme k <> VNull) ->
  theme_styles reference_theme theme require_all = Ok theme.
Proof.
  intros Hkeys Hall. unfold theme_styles, _validate_theme_tokens.
  rewrite (unsupported_nil _ _ Hkeys). simpl.
  destruct require_all; [|reflexivity].
  assert (missing (map_keys reference_theme) theme = []) as ->.
  { apply nil_no_member. intros k Hk. apply missing_spec in Hk.
    destruct Hk as (Hin & Hnull & _).
    destruct (Hall eq_refl k Hin) as [_ Hvalue]. contradiction. }
  reflexivity.
Qed.

Definition light_theme : smap :=
  [ ("container-color", VStr "white");
    ("label-text-color", VStr "black");
    ("label-text-type", VNull) ].

Definition full_theme : smap :=
  [ ("label-text-color", VStr "navy");
    ("container-color", VStr "ivory");
    ("label-text-type", VStr "bold") ].

Lemma full_theme_keys :
  forall k, In k (map_keys full_theme) -> In k (map_keys light_theme).
Proof.
  simpl. intros k H. repeat destruct H as [<-|H]; auto; contradiction.
Defined.

Lemma full_theme_values :
  true = true ->
  forall k, In k (map_keys light_theme) ->
            In k (map_keys full_theme) /\ assoc_get full_theme k <> VNull.
Proof.
  intros _ k. simpl. intros H.
  repeat destruct H as [<-|H]; try contradiction;
    (split; [auto | discriminate]).
Defined.

Lemma theme_styles_accepts_witness :
  (forall k, In k (map_keys full_theme) -> In k (map_keys light_theme)) /\
  (true = true ->
   forall k, In k (map_keys light_theme) ->
             In k (map_keys full_theme) /\ assoc_get full_theme k <> VNull) /\
  theme_styles light_theme full_theme true = Ok full_theme.
Proof.
  split; [exact full_theme_keys|]. split; [exact full_theme_values|].
  exact (theme_styles_accepts light_theme full_theme true
           full_theme_keys full_theme_values).
Defined.

(** C4. A theme with a key that is not a key of the reference theme is
    refused, whether or not all tokens are required: validation raises
    the error 'The following tokens are invalid: ...', which lists the
    keys of the theme that the reference theme lacks, and only those. *)
Theorem theme_styles_rejects_unsupported (reference_theme theme : smap)
    (require_all : bool) :
  (exists k, In k (map_keys theme) /\ ~ In k (map_keys reference_theme)) ->
  exists offending,
    theme_styles reference_theme theme require_all
    = Error (InvalidTokens offending) /\
    Validate.theme reference_theme theme = Error (InvalidTokens offending) /\
    (forall k, In k offending <->
               In k (map_keys theme) /\ ~ In k (map_keys reference_theme)) /\
    offending
    = filter (list_index_is_null (map_keys reference_theme)) (map_keys theme)
    /\
    error_message (InvalidTokens offending)
    = Some ("The following tokens are invalid: "
              ++ String.concat ", " offending ++ ".").
Proof.
  intros (k & Hin & Hnot).
  exists (unsupported (map_keys reference_theme) theme).
  assert (Hlen : Nat.ltb 0 (List.length
                    (unsupported (map_keys reference_theme) theme)) = true).
  { destruct (unsupported (map_keys reference_theme) theme) eqn:E;
      [|reflexivity].
    exfalso.
    assert (In k (unsupported (map_keys reference_theme) theme)) as Hk
      by (apply unsupported_spec; auto).
    rewrite E in Hk. exact Hk. }
  unfold Validate.theme, theme_styles, _validate_theme_tokens.
  rewrite Hlen.
  split; [reflexivity|]. split; [reflexivity|].
  split; [intros k'; apply unsupported_spec|].
  split; [|reflexivity].
  rewrite unsupported_filter. unfold map_keys. clear.
  induction theme as [|[k' v] rest IH]; simpl; [reflexivity|].
  destruct (list_index_is_null _ k'); simpl; [f_equal|]; apply IH.
Qed.

Definition extra_theme : smap :=
  [ ("label-text-color", VStr "navy"); ("elevation", VNum 2) ].

Lemma extra_theme_key :
  exists k, In k (map_keys extra_theme) /\ ~ In k (map_keys light_theme).
Proof.
  exists "elevation". split; [simpl; auto|].
  simpl. intros H. repeat destruct H as [H|H]; try discriminate; exact H.
Defined.

Lemma theme_styles_rejects_unsupported_witness :
  (exists k, In k (map_keys extra_theme) /\ ~ In k (map_keys light_theme)) /\
  exists offending,
    theme_styles light_theme extra_theme true
    = Error (InvalidTokens offending) /\
    Validate.theme light_theme extra_theme = Error (InvalidTokens offending) /\
    (forall k, In k offending <->
               In k (map_keys extra_theme) /\ ~ In k (map_keys light_theme)) /\
    offending
    = filter (list_index_is_null (map_keys light_theme)) (map_keys extra_theme)
    /\
    error_message (InvalidTokens offending)
    = Some ("The following tokens are invalid: "
              ++ String.concat ", " offending ++ ".").
Proof.
  split; [exact extra_theme_key|].
  exact (theme_styles_rejects_unsupported light_theme extra_theme true
           extra_theme_key).
Defined.

Example extra_theme_error :
  theme_styles light_theme extra_theme true
  = Error (InvalidTokens ["elevation"]) /\
  error_message (InvalidTokens ["elevation"])
  = Some "The following tokens are invalid: elevation.".
Proof. split; reflexivity. Qed.

Example has_suffix_type :
  StringExt.has_suffix "label-text-type" "-type" = true /\
  StringExt.has_suffix "label-text-color" "-type" = false /\
  StringExt.has_suffix "type" "-type" = false.
Proof. repeat split; reflexivity. Qed.

Lemma assoc_get_absent (m : smap) (key : string) :
  ~ In key (map_keys m) -> assoc_get m key = VNull.
Proof.
  induction m as [|[k v] rest IH]; simpl; [reflexivity|].
  intros H. destruct (String.eqb k key) eqn:E.
  - apply String.eqb_eq in E. exfalso. apply H. left. assumption.
  - apply IH. intros Hin. apply H. right. assumption.
Qed.

(** A token whose name ends in [-type] is never listed as missing. *)
Lemma type_suffix_exempt (valid_tokens : list string) (theme : smap)
    (require_all : bool) (missing_tokens : list string) :
  _validate_theme_tokens valid_tokens theme require_all
  = Error (MissingTokens missing_tokens) ->
  forall token, In token missing_tokens ->
                StringExt.has_suffix token "-type" = false.
Proof.
  unfold _validate_theme_tokens.
  destruct (Nat.ltb 0 (List.length (unsupported valid_tokens theme)));
    [discriminate|].
  destruct require_all; simpl; [|discriminate].
  destruct (Nat.ltb 0 (List.length (missing valid_tokens theme)));
    [|discriminate].
  intros H token Hin. inversion H; subst.
  apply missing_spec in Hin. tauto.
Qed.

(** C5, as amended.  With [$require-all] true and no unsupported key in
    the theme, a valid token that the theme lacks or maps to null, and
    whose name does not end in [-type], is reported: validation raises the
    error 'The following required tokens are missing: ...', which lists
    the valid tokens that are missing and do not end in [-type], and only
    those. *)
Theorem missing_tokens_reported (valid_tokens : list string) (theme : smap)
    (token : string) :
  (forall k, In k (map_keys theme) -> In k valid_tokens) ->
  In token valid_tokens ->
  assoc_get theme token = VNull ->
  StringExt.has_suffix token "-type" = false ->
  exists missing_tokens,
    _validate_theme_tokens valid_tokens theme true
    = Error (MissingTokens missing_tokens) /\
    In token missing_tokens /\
    (forall t, In t missing_tokens <->
               In t valid_tokens /\ assoc_get theme t = VNull
               /\ StringExt.has_suffix t "-type" = false) /\
    error_message (MissingTokens missing_tokens)
    = Some ("The following required tokens are missing: "
              ++ String.concat ", " missing_tokens ++ ".").
Proof.
  intros Hkeys Hin Hnull Hsuffix.
  exists (missing valid_tokens theme).
  assert (Hmem : In token (missing valid_tokens theme))
    by (apply missing_spec; auto).
  unfold _validate_theme_tokens.
  rewrite (unsupported_nil _ _ Hkeys). simpl.
  destruct (missing valid_tokens theme) as [|t rest] eqn:E;
    [contradiction|].
  split; [reflexivity|]. split; [assumption|].
  split; [|reflexivity].
  intros t'. rewrite <- E. apply missing_spec.
Qed.

Definition partial_theme : smap :=
  [ ("label-text-color", VStr "navy"); ("container-color", VNull) ].

Lemma partial_theme_keys :
  forall k, In k (map_keys partial_theme) -> In k (map_keys light_theme).
Proof.
  simpl. intros k H. repeat destruct H as [<-|H]; auto; contradiction.
Defined.

Lemma missing_tokens_reported_witness :
  (forall k, In k (map_keys partial_theme) -> In k (map_keys light_theme)) /\
  In "container-color" (map_keys light_theme) /\
  assoc_get partial_theme "container-color" = VNull /\
  StringExt.has_suffix "container-color" "-type" = false /\
  exists missing_tokens,
    _validate_theme_tokens (map_keys light_theme) partial_theme true
    = Error (MissingTokens missing_tokens) /\
    In "container-color" missing_tokens /\
    (forall t, In t missing_tokens <->
               In t (map_keys light_theme)
               /\ assoc_get partial_theme t = VNull
               /\ StringExt.has_suffix t "-type" = false) /\
    error_message (MissingTokens missing_tokens)
    = Some ("The following required tokens are missing: "
              ++ String.concat ", " missing_tokens ++ ".").
Proof.
  split; [exact partial_theme_keys|].
  split; [simpl; auto|]. split; [reflexivity|]. split; [reflexivity|].
  apply (missing_tokens_reported (map_keys light_theme) partial_theme
           "container-color" partial_theme_keys);
    [simpl; auto | reflexivity | reflexivity].
Defined.

Example partial_theme_error :
  theme_styles light_theme partial_theme true
  = Error (MissingTokens ["container-color"]) /\
  error_message (MissingTokens ["container-color"])
  = Some "The following required tokens are missing: container-color.".
Proof. split; reflexivity. Qed.

(** The unsupported keys are reported first, in an error of their own:
    the token [container-color], which [extra_theme] lacks, is then not
    reported. *)
Lemma missing_token_not_reported :
  In "container-color" (map_keys light_theme) /\
  assoc_get extra_theme "container-color" = VNull /\
  StringExt.has_suffix "container-color" "-type" = false /\
  theme_styles light_theme extra_theme true
  = Error (InvalidTokens ["elevation"]) /\
  ~ (exists missing_tokens,
       theme_styles light_theme extra_theme true
       = Error (MissingTokens missing_tokens) /\
       In "container-color" missing_tokens).
Proof.
  split; [simpl; auto|]. split; [reflexivity|]. split; [reflexivity|].
  split; [reflexivity|].
  intros (l & H & _).
  change (theme_styles light_theme extra_theme true)
    with (@Error smap (InvalidTokens ["elevation"])) in H.
  discriminate H.
Qed.

End ValidateSpec.

(** ** The character counter *)

Module CharacterCounterSpec.
Import CharacterCounter.

Lemma digits_no_separator (d : Decimal.uint) :
  no_separator (NilEmpty.string_of_uint d).
Proof.
  unfold no_separator.
  induction d as [|d [IH1 IH2]|d [IH1 IH2]|d [IH1 IH2]|d [IH1 IH2]
                 |d [IH1 IH2]|d [IH1 IH2]|d [IH1 IH2]|d [IH1 IH2]
                 |d [IH1 IH2]|d [IH1 IH2]];
    simpl; auto.
Qed.

Lemma number_to_string_no_separator (n : Z) :
  no_separator (number_to_string n).
Proof.
  unfold number_to_string, NilZero.string_of_int, NilZero.string_of_uint.
  destruct (Z.to_int n) as [d|d].
  - destruct d; try apply digits_no_separator. split; reflexivity.
  - pose proof (digits_no_separator d) as [H1 H2].
    destruct d; split; simpl in *; auto.
Qed.

Lemma occurs_app (c : ascii) (s1 s2 : string) :
  occurs c (s1 ++ s2) = occurs c s1 || occurs c s2.
Proof.
  induction s1 as [|c' s1 IH]; simpl; [reflexivity|].
  rewrite IH, orb_assoc. reflexivity.
Qed.

Lemma separator_has_slash (s1 s2 : string) :
  occurs "/" (s1 ++ " / " ++ s2) = true.
Proof.
  rewrite occurs_app. simpl. apply orb_true_r.
Qed.

(** Around strings without spaces and slashes the separator is found in
    one place only. *)
Lemma separator_unique (a b pre post : string) :
  no_separator a -> no_separator b ->
  a ++ " / " ++ b = pre ++ " / " ++ post ->
  pre = a /\ post = b.
Proof.
  intros Ha [_ Hb]. revert pre Ha.
  induction a as [|h a IH]; intros pre Ha H.
  - destruct pre as [|x pre]; simpl in H.
    + inversion H. split; reflexivity.
    + exfalso. inversion H as [[Hx H1]]. clear H.
      destruct pre as [|y pre]; simpl in H1; [discriminate|].
      inversion H1 as [[Hy H2]]. clear H1.
      destruct pre as [|z pre]; simpl in H2.
      * inversion H2 as [H3]. rewrite H3 in Hb. simpl in Hb. discriminate.
      * inversion H2 as [[Hz H3]].
        assert (occurs "/" b = true) as Hslash
          by (rewrite H3; apply separator_has_slash).
        congruence.
  - destruct Ha as [Hs1 Hs2]. simpl in Hs1, Hs2.
    apply orb_false_iff in Hs1. apply orb_false_iff in Hs2.
    destruct Hs1 as [Hh1 Hs1]. destruct Hs2 as [Hh2 Hs2].
    destruct pre as [|x pre]; simpl in H.
    + inversion H as [[Hh H1]]. subst h. discriminate.
    + inversion H as [[Hh H1]]. subst x.
      destruct (IH pre (conj Hs1 Hs2) H1) as [-> ->].
      split; reflexivity.
Qed.

(** C6. For lengths that are safe integers, the text [setCounterValue]
    gives [adapter.setContent] is the decimal numeral of
    [min(currentLength, maxLength)], then [" / "], then the decimal
    numeral of [maxLength]: each part reads back, as a decimal numeral, as
    that number, the separator is found in the text once, and the length
    shown is [maxLength] whenever [currentLength] is greater. *)
Theorem setCounterValue_content (currentLength maxLength : Z) :
  safe_integer currentLength ->
  safe_integer maxLength ->
  let shown := Z.min currentLength maxLength in
  let content :=
    NilZero.string_of_int (Z.to_int shown)
      ++ " / " ++ NilZero.string_of_int (Z.to_int maxLength) in
  (forall s,
     In (SetContent s) (setCounterValue recorder currentLength maxLength [])
     <-> s = content) /\
  (forall pre post,
     content = pre ++ " / " ++ post ->
     NilZero.int_of_string pre = Some (Z.to_int shown) /\
     NilZero.int_of_string post = Some (Z.to_int maxLength)) /\
  Z.of_int (Z.to_int shown) = shown /\
  Z.of_int (Z.to_int maxLength) = maxLength /\
  shown = (if (maxLength <? currentLength)%Z
           then maxLength else currentLength).
Proof.
  intros _ _. cbv zeta. split; [|split; [|split; [|split]]].
  - intros s. unfold setCounterValue. simpl. split.
    + intros [H|[H|[]]]; [|discriminate]. inversion H. reflexivity.
    + intros ->. left. reflexivity.
  - intros pre post H.
    destruct (separator_unique _ _ pre post
                (number_to_string_no_separator _)
                (number_to_string_no_separator _) H) as [-> ->].
    unfold number_to_string.
    split; apply NilZero.isi;
      match goal with
      | |- Z.to_int ?n <> _ => destruct n; simpl; try discriminate;
          intros Hnil; inversion Hnil as [Hd];
          exact (Unsigned.to_uint_nonnil _ Hd)
      end.
  - apply DecimalZ.of_to.
  - apply DecimalZ.of_to.
  - destruct (Z.ltb_spec maxLength currentLength) as [Hlt|Hle].
    + apply Z.min_r. lia.
    + apply Z.min_l. lia.
Qed.

Lemma safe_12 : safe_integer 12.
Proof. unfold safe_integer, MAX_SAFE_INTEGER. lia. Defined.

Lemma safe_10 : safe_integer 10.
Proof. unfold safe_integer, MAX_SAFE_INTEGER. lia. Defined.

Lemma setCounterValue_content_witness :
  safe_integer 12 /\
  safe_integer 10 /\
  (forall s,
     In (SetContent s) (setCounterValue recorder 12 10 [])
     <-> s = "10 / 10") /\
  (forall pre post,
     "10 / 10" = pre ++ " / " ++ post ->
     NilZero.int_of_string pre = Some (Z.to_int 10) /\
     NilZero.int_of_string post = Some (Z.to_int 10)) /\
  Z.of_int (Z.to_int 10) = 10%Z /\
  Z.of_int (Z.to_int 10) = 10%Z /\
  10%Z = 10%Z.
Proof.
  split; [exact safe_12|]. split; [exact safe_10|].
  exact (setCounterValue_content 12 10 safe_12 safe_10).
Defined.

Example counter_over_limit :
  setCounterValue recorder 12 10 []
  = [SetContent "10 / 10"; SetCounterValue 10 10].
Proof. reflexivity. Qed.

Example counter_under_limit :
  setCounterValue recorder 3 10 []
  = [SetContent "3 / 10"; SetCounterValue 3 10].
Proof. reflexivity. Qed.

(** C9. The pair [setCounterValue] forwards to
    [adapter.setCounterValue] is [(min(currentLength, maxLength),
    maxLength)]: the call comes after [setContent], and both callbacks
    are given the clamped length, whatever the adapter. *)
Theorem setCounterValue_forwards_clamped (currentLength maxLength : Z) :
  setCounterValue recorder currentLength maxLength []
  = [ SetContent (number_to_string (Z.min currentLength maxLength)
                    ++ " / " ++ number_to_string maxLength);
      SetCounterValue (Z.min currentLength maxLength) maxLength ] /\
  (forall c m,
     In (SetCounterValue c m)
        (setCounterValue recorder currentLength maxLength [])
     <-> c = Z.min currentLength maxLength /\ m = maxLength) /\
  (forall (dom : Type) (adapter : MDCTextFieldCharacterCounterAdapter dom)
          (page : dom),
     setCounterValue adapter currentLength maxLength page
     = adapter_setCounterValue adapter
         (Z.min currentLength maxLength) maxLength
         (setContent adapter
            (number_to_string (Z.min currentLength maxLength)
               ++ " / " ++ number_to_string maxLength) page)).
Proof.
  split; [reflexivity|]. split; [|reflexivity].
  intros c m. unfold setCounterValue. simpl. split.
  - intros [H|[H|[]]]; [discriminate|]. inversion H. split; reflexivity.
  - intros [-> ->]. right. left. reflexivity.
Qed.

End CharacterCounterSpec.

(** * Further properties of the code *)

(** ** Custom properties: records, their names and their fallbacks *)

Module CustomPropertiesFacts.
Import CustomProperties CustomPropertiesSpec.

(** The record [(varname: name, fallback: fallback)]. *)
Definition record (name : string) (fallback : value) : value :=
  VMap [("varname", VStr name); ("fallback", fallback)].

Lemma created_name_prefix (name : string) :
  substring 0 2 (created_name name) = "--".
Proof.
  unfold created_name.
  destruct (String.eqb (substring 0 2 name) "--") eqn:E.
  - apply String.eqb_eq. exact E.
  - reflexivity.
Qed.

Lemma created_name_idempotent (name : string) :
  created_name (created_name name) = created_name name.
Proof. apply created_name_dashes, created_name_prefix. Qed.

Lemma create_not_string (varname fallback : value) :
  as_string varname = Error (NotAString varname) ->
  create varname fallback = Error (NotAString varname).
Proof.
  intros H. unfold create, string_slice. rewrite H. reflexivity.
Qed.

(** The first two characters of a call's text are dashes when those of
    its name are. *)
Lemma call_starts_with_dashes (name : string) :
  String.eqb (substring 0 2 (name ++ "(")) "--"
  = String.eqb (substring 0 2 name) "--".
Proof.
  destruct name as [|a [|b rest]]; simpl;
    repeat match goal with
           | |- context [Ascii.eqb ?x ?y] => destruct (Ascii.eqb x y)
           end;
    try reflexivity; destruct rest; reflexivity.
Qed.

Lemma create_call (name : string) (args : list value) (fallback : value) :
  create (VCall name args) fallback
  = Ok (VMap [("varname", VCall (created_name name) args);
              ("fallback", fallback)]).
Proof.
  unfold create, created_name, string_slice. simpl.
  rewrite call_starts_with_dashes.
  destruct (String.eqb (substring 0 2 name) "--"); reflexivity.
Qed.

(** X1. [create] makes of a name that is a string, and any fallback, a
    custom property record whose first fallback is the value given.  The
    name of the record is the given one when that starts with two dashes
    and [--mdc-] followed by the given one otherwise, so the name of a
    plain string always starts with two dashes; a name that is a [var()]
    string is treated alike.  On a name that is not a string (null, a
    boolean, a number, a list, a map) it raises the error of
    [string.slice]. *)
Theorem create_record (varname fallback : value) :
  match varname with
  | VStr name =>
      exists r,
        create varname fallback = Ok r /\
        is_custom_prop r = true /\
        get_varname r = Ok (VStr (created_name name)) /\
        substring 0 2 (created_name name) = "--" /\
        get_fallback r true = Ok fallback
  | VCall name args =>
      exists r,
        create varname fallback = Ok r /\
        is_custom_prop r = true /\
        get_varname r = Ok (VCall (created_name name) args) /\
        get_fallback r true = Ok fallback
  | _ => create varname fallback = Error (NotAString varname)
  end.
Proof.
  destruct varname; try reflexivity.
  - exists (record (created_name s) fallback).
    split; [apply create_string|]. split; [reflexivity|].
    split; [reflexivity|]. split; [apply created_name_prefix|].
    rewrite get_fallback_shallow. reflexivity.
  - eexists. split; [apply create_call|]. split; [reflexivity|].
    split; [reflexivity|].
    rewrite get_fallback_shallow. reflexivity.
Qed.

Example create_doc_example :
  create (VStr "--foo") (VStr "teal") = Ok (record "--foo" (VStr "teal")) /\
  create (VStr "foo") VNull = Ok (record "--mdc-foo" VNull) /\
  create_varname (Plain "foo") = Plain "--mdc-foo" /\
  create (VNum 4) VNull = Error (NotAString (VNum 4)) /\
  create (VCall "var" [VStr "--x"]) VNull
  = Ok (VMap [("varname", VCall "--mdc-var" [VStr "--x"]);
              ("fallback", VNull)]).
Proof. repeat split; reflexivity. Qed.

(** Deep [set-fallback] on a record with string names, for any new value. *)
Lemma set_fallback_deep_any (p v : value) :
  named_chain p ->
  exists name fallback,
    get_varname p = Ok (VStr name) /\
    set_fallback p v false = Ok (record (created_name name) fallback).
Proof.
  intros Hchain.
  induction Hchain as [p name c Hname Hfb Hc
                      | p name q Hname Hfb Hq Hchain IH].
  - exists name, v. split; [assumption|].
    rewrite set_fallback_eq, Hname, get_fallback_shallow, Hfb. simpl.
    rewrite Hc. simpl. apply create_string.
  - destruct IH as (name' & fb' & _ & Hset).
    exists name, (record (created_name name') fb').
    split; [assumption|].
    rewrite set_fallback_eq, Hname, get_fallback_shallow, Hfb. simpl.
    rewrite Hq. simpl. rewrite Hset. simpl. apply create_string.
Qed.

Lemma assoc_get_has_key (m : smap) (key : string) :
  assoc_get m key <> VNull -> assoc_has_key m key = true.
Proof.
  induction m as [|[k x] rest IH]; simpl; [congruence|].
  destruct (String.eqb k key); simpl; auto.
Qed.

(** A value with a string under [varname] is a record. *)
Lemma named_is_record (p : value) (name : string) :
  get_varname p = Ok (VStr name) -> is_custom_prop p = true.
Proof.
  unfold get_varname, map_get.
  destruct p as [| | | |l|m|]; simpl; try discriminate.
  - destruct l; discriminate.
  - intros H. inversion H as [Hget]. apply assoc_get_has_key.
    rewrite Hget. discriminate.
Qed.

Lemma named_chain_record (p : value) :
  named_chain p -> is_custom_prop p = true.
Proof. destruct 1; eapply named_is_record; eassumption. Qed.

Lemma record_named (name : string) (fallback : value) :
  is_custom_prop fallback = false \/ named_chain fallback ->
  named_chain (record name fallback).
Proof.
  intros [Hlit|Hchain].
  - eapply named_last; [reflexivity | reflexivity | assumption].
  - eapply named_link;
      [reflexivity | reflexivity | apply named_chain_record | ]; assumption.
Qed.

(** X2. A record built by [create], over a literal or over a record whose
    names are strings, keeps its name under [set-fallback], for either
    value of the shallow flag. *)
Theorem set_fallback_keeps_created_name (name : string)
    (fallback v r : value) (shallow : bool) :
  create (VStr name) fallback = Ok r ->
  is_custom_prop fallback = false \/ named_chain fallback ->
  exists r',
    set_fallback r v shallow = Ok r' /\ get_varname r' = get_varname r.
Proof.
  intros Hcreate Hfb. rewrite create_string in Hcreate.
  inversion Hcreate; subst r. clear Hcreate.
  fold (record (created_name name) fallback).
  destruct shallow.
  - eexists. split.
    + apply (set_fallback_shallow _ v (created_name name)). reflexivity.
    + rewrite created_name_idempotent. reflexivity.
  - destruct (set_fallback_deep_any (record (created_name name) fallback) v
                (record_named _ _ Hfb)) as (n & fb' & Hn & Hset).
    inversion Hn; subst n.
    eexists. split; [exact Hset|].
    rewrite created_name_idempotent. reflexivity.
Qed.

Lemma set_fallback_keeps_created_name_witness :
  create (VStr "b") (VStr "teal") = Ok (record "--mdc-b" (VStr "teal")) /\
  (is_custom_prop (VStr "teal") = false \/ named_chain (VStr "teal")) /\
  exists r',
    set_fallback (record "--mdc-b" (VStr "teal")) (VStr "red") false = Ok r' /\
    get_varname r' = get_varname (record "--mdc-b" (VStr "teal")).
Proof.
  split; [reflexivity|]. split; [left; reflexivity|].
  apply (set_fallback_keeps_created_name "b" (VStr "teal") (VStr "red")
           (record "--mdc-b" (VStr "teal")) false);
    [reflexivity | left; reflexivity].
Defined.

(** On a map, [get-fallback] returns a value, with either flag. *)
Lemma get_fallback_map_total (p : value) (shallow : bool) :
  as_map p <> None -> exists v, get_fallback p shallow = Ok v.
Proof.
  remember (size p) as n eqn:Hn. revert p shallow Hn.
  induction n as [n IH] using lt_wf_ind. intros p shallow Hn Hmap.
  rewrite get_fallback_eq. unfold map_get.
  destruct (as_map p) as [m|] eqn:E; [|congruence]. simpl.
  destruct (is_custom_prop (assoc_get m "fallback") && negb shallow) eqn:Hc.
  - apply andb_true_iff in Hc. destruct Hc as [Hrec _].
    apply (IH (size (assoc_get m "fallback"))); auto.
    + subst n. apply (map_get_size p "fallback").
      unfold map_get. rewrite E. reflexivity.
    + destruct (is_custom_prop_map _ Hrec) as [m' ->]. discriminate.
  - eexists; reflexivity.
Qed.

(** X3. The value deep [get-fallback] returns, for any map at all, is
    never a custom property record. *)
Theorem get_fallback_deep_not_record (p v : value) :
  get_fallback p false = Ok v -> is_custom_prop v = false.
Proof.
  remember (size p) as n eqn:Hn. revert p v Hn.
  induction n as [n IH] using lt_wf_ind. intros p v Hn.
  rewrite get_fallback_eq.
  destruct (map_get p "fallback") as [fb|] eqn:Hfb; simpl; [|discriminate].
  destruct (is_custom_prop fb) eqn:Hrec; simpl.
  - apply (IH (size fb)); auto.
    subst n. eapply map_get_size; eauto.
  - intros H. inversion H; subst. assumption.
Qed.

Lemma get_fallback_deep_not_record_witness :
  get_fallback chain_A false = Ok (VStr "teal") /\
  is_custom_prop (VStr "teal") = false.
Proof.
  split; [reflexivity|].
  apply (get_fallback_deep_not_record chain_A (VStr "teal")). reflexivity.
Defined.

(** X4. [get-fallback] fails exactly on an argument that is not a map:
    there it raises the error of [map.get], and on every map, record or
    not, it returns a value, with either flag. *)
Theorem get_fallback_error_iff (p : value) (shallow : bool) :
  match as_map p with
  | Some _ => exists v, get_fallback p shallow = Ok v
  | None => get_fallback p shallow = Error (NotAMap p)
  end.
Proof.
  destruct (as_map p) as [m|] eqn:E.
  - apply get_fallback_map_total. congruence.
  - rewrite get_fallback_eq. unfold map_get. rewrite E. reflexivity.
Qed.

Example get_fallback_edge_cases :
  get_fallback (VStr "teal") false = Error (NotAMap (VStr "teal")) /\
  get_fallback VNull true = Error (NotAMap VNull) /\
  get_fallback (VList []) false = Ok VNull /\
  get_fallback (VMap [("varname", VStr "--a")]) false = Ok VNull.
Proof. repeat split; reflexivity. Qed.

(** X5. Shallow [set-fallback] then shallow [get-fallback] gives back the
    value set, whatever it is (a literal, [null] or another record), on
    every record whose name is a string. *)
Theorem set_fallback_shallow_get (p v : value) (name : string) :
  get_varname p = Ok (VStr name) ->
  exists r,
    set_fallback p v true = Ok r /\
    is_custom_prop r = true /\
    get_fallback r true = Ok v.
Proof.
  intros Hname. exists (record (created_name name) v).
  split; [apply set_fallback_shallow; assumption|].
  split; [reflexivity|].
  rewrite get_fallback_shallow. reflexivity.
Qed.

Lemma set_fallback_shallow_get_witness :
  get_varname chain_A = Ok (VStr "--a") /\
  exists r,
    set_fallback chain_A chain_B true = Ok r /\
    is_custom_prop r = true /\
    get_fallback r true = Ok chain_B.
Proof.
  split; [reflexivity|].
  apply (set_fallback_shallow_get chain_A chain_B "--a"). reflexivity.
Defined.

(** X6. A later deep [set-fallback] overwrites an earlier one: setting
    [v], not a record, and then [w] gives what setting [w] alone gives. *)
Theorem set_fallback_overwrites (p v w : value) :
  named_chain p ->
  is_custom_prop v = false ->
  exists r,
    set_fallback p v false = Ok r /\
    set_fallback r w false = set_fallback p w false.
Proof.
  intros Hchain Hv.
  induction Hchain as [p name c Hname Hfb Hc
                      | p name q Hname Hfb Hq Hchain IH].
  - exists (record (created_name name) v). split.
    + rewrite set_fallback_eq, Hname, get_fallback_shallow, Hfb. simpl.
      rewrite Hc. simpl. apply create_string.
    + rewrite (set_fallback_eq p), Hname, get_fallback_shallow, Hfb. simpl.
      rewrite Hc. simpl.
      rewrite set_fallback_eq, get_fallback_shallow. simpl.
      rewrite Hv. simpl.
      rewrite !create_string, created_name_idempotent. reflexivity.
  - destruct IH as (r & Hset & Hagain).
    destruct (set_fallback_deep_any q v Hchain) as (n' & fb' & _ & Hshape).
    rewrite Hset in Hshape. inversion Hshape; subst r. clear Hshape.
    exists (record (created_name name) (record (created_name n') fb')).
    split.
    + rewrite set_fallback_eq, Hname, get_fallback_shallow, Hfb. simpl.
      rewrite Hq. simpl. rewrite Hset. simpl. apply create_string.
    + rewrite (set_fallback_eq p), Hname, get_fallback_shallow, Hfb. simpl.
      rewrite Hq. simpl.
      rewrite set_fallback_eq, get_fallback_shallow. simpl.
      rewrite Hagain.
      destruct (set_fallback q w false) as [inner|]; simpl; [|reflexivity].
      rewrite !create_string, created_name_idempotent. reflexivity.
Qed.

Lemma set_fallback_overwrites_witness :
  named_chain chain_A /\
  is_custom_prop (VStr "red") = false /\
  exists r,
    set_fallback chain_A (VStr "red") false = Ok r /\
    set_fallback r (VStr "blue") false
    = set_fallback chain_A (VStr "blue") false.
Proof.
  split; [exact chain_A_named|]. split; [reflexivity|].
  apply (set_fallback_overwrites chain_A (VStr "red") (VStr "blue"));
    [exact chain_A_named | reflexivity].
Defined.

(** X7. [set-fallback] fails, with either flag, on a map whose [varname]
    is not a string (null, a boolean, a number, a list or a map):
    [create] cannot slice the name. *)
Theorem set_fallback_rejects_name (p v name : value) (shallow : bool) :
  get_varname p = Ok name ->
  as_string name = Error (NotAString name) ->
  is_error (set_fallback p v shallow) = true.
Proof.
  intros Hname Hbad.
  rewrite set_fallback_eq, Hname, get_fallback_shallow. simpl.
  unfold get_varname in Hname. unfold map_get in *.
  destruct (as_map p); [|discriminate]. simpl.
  match goal with
  | |- context [if ?b then ?x else ?y] => destruct (if b then x else y)
  end; simpl; [|reflexivity].
  rewrite (create_not_string name _ Hbad). reflexivity.
Qed.

Definition numbered_record : value :=
  VMap [("varname", VNum 7); ("fallback", VStr "teal")].

Lemma set_fallback_rejects_name_witness :
  get_varname numbered_record = Ok (VNum 7) /\
  as_string (VNum 7) = Error (NotAString (VNum 7)) /\
  is_error (set_fallback numbered_record (VStr "red") false) = true.
Proof.
  split; [reflexivity|]. split; [reflexivity|].
  apply (set_fallback_rejects_name numbered_record (VStr "red") (VNum 7) false);
    reflexivity.
Defined.

Example set_fallback_rejects_number :
  is_custom_prop numbered_record = true /\
  set_fallback numbered_record (VStr "red") true = Error (NotAString (VNum 7)).
Proof. split; reflexivity. Qed.

(** ** Custom properties: what create-var and declaration emit *)

(** The names met along a record's fallback chain, and the value the
    chain ends in. *)
Inductive chain_names : value -> list value -> value -> Prop :=
| names_last (p name c : value) :
    is_custom_prop p = true ->
    get_varname p = Ok name ->
    map_get p "fallback" = Ok c ->
    is_custom_prop c = false ->
    chain_names p [name] c
| names_link (p name q : value) (names : list value) (c : value) :
    is_custom_prop p = true ->
    get_varname p = Ok name ->
    map_get p "fallback" = Ok q ->
    is_custom_prop q = true ->
    chain_names q names c ->
    chain_names p (name :: names) c.

(** The [var()] string the documentation of the switches describes: the
    static value at the end is emitted when fallback values are, and the
    nested [var()] fallbacks when fallback vars are. *)
Fixpoint var_chain (emit_vars emit_values : bool) (names : list value)
    (c : value) : value :=
  match names with
  | [] => c
  | name :: rest =>
      match rest with
      | [] =>
          if truthy c && emit_values
          then VCall "var" [name; c]
          else VCall "var" [name]
      | _ :: _ =>
          if emit_vars
          then VCall "var" [name; var_chain emit_vars emit_values rest c]
          else VCall "var" [name]
      end
  end.

Lemma chain_names_nonempty (p : value) (names : list value) (c : value) :
  chain_names p names c -> names <> [].
Proof. destruct 1; discriminate. Qed.

Lemma var_chain_valid (emit_vars emit_values : bool) (names : list value)
    (c : value) :
  names <> [] -> invalid_css (var_chain emit_vars emit_values names c) = None.
Proof.
  destruct names as [|name [|name' rest]]; simpl; [congruence| |]; intros _.
  - destruct (truthy c && emit_values); reflexivity.
  - destruct emit_vars; reflexivity.
Qed.

(** X8. With custom properties emitted, and names and a final value that
    have a CSS text, [create-var] gives the nested [var()] string of the
    names along the chain: a record fallback is rendered as an inner
    [var()] when [emit-fallback-vars] holds and left out otherwise; the
    value ending the chain is appended when it is truthy and
    [emit-fallback-values] holds, and left out otherwise. *)
Theorem create_var_chain (config : smap) (p : value) (names : list value)
    (c : value) :
  chain_names p names c ->
  Forall (fun name => invalid_css name = None) names ->
  invalid_css c = None ->
  truthy (assoc_get config "emit-custom-properties") = true ->
  create_var config p
  = Ok (var_chain (truthy (assoc_get config "emit-fallback-vars"))
                  (truthy (assoc_get config "emit-fallback-values"))
                  names c).
Proof.
  intros Hchain Hnames Hend Hon.
  induction Hchain as [p name c Hp Hname Hfb Hc
                      | p name q names c Hp Hname Hfb Hq Hchain IH];
    rewrite create_var_eq, Hon, Hname, get_fallback_shallow, Hfb; simpl;
    inversion Hnames as [|? ? Hvalid Hrest]; subst.
  - rewrite Hc. simpl. rewrite andb_true_r.
    destruct (truthy c && truthy (assoc_get config "emit-fallback-values"));
      rewrite var_valid by valid_args; reflexivity.
  - rewrite Hq. simpl.
    pose proof (chain_names_nonempty _ _ _ Hchain) as Hnonempty.
    destruct names as [|name' names]; [congruence|].
    destruct (truthy (assoc_get config "emit-fallback-vars")).
    + rewrite (IH Hrest Hend). simpl.
      rewrite var_valid; [reflexivity|].
      apply Forall_cons; [assumption|]. apply Forall_cons; [|apply Forall_nil].
      exact (var_chain_valid true
               (truthy (assoc_get config "emit-fallback-values"))
               (name' :: names) c Hnonempty).
    + rewrite (andb_false_r (truthy q)). simpl.
      rewrite var_valid by valid_args. reflexivity.
Qed.

Lemma chain_A_names : chain_names chain_A [VStr "--a"; VStr "--b"] chain_C.
Proof.
  eapply names_link with (q := chain_B); try reflexivity.
  apply names_last; reflexivity.
Defined.

Lemma chain_A_names_valid :
  Forall (fun name => invalid_css name = None) [VStr "--a"; VStr "--b"].
Proof. repeat (apply Forall_cons; [reflexivity|]). apply Forall_nil. Defined.

Definition no_fallback_vars : smap :=
  map_merge default_config [("emit-fallback-vars", VBool false)].

Lemma create_var_chain_witness :
  chain_names chain_A [VStr "--a"; VStr "--b"] chain_C /\
  Forall (fun name => invalid_css name = None) [VStr "--a"; VStr "--b"] /\
  invalid_css chain_C = None /\
  truthy (assoc_get no_fallback_vars "emit-custom-properties") = true /\
  create_var no_fallback_vars chain_A = Ok (VCall "var" [VStr "--a"]).
Proof.
  split; [exact chain_A_names|]. split; [exact chain_A_names_valid|].
  split; [reflexivity|]. split; [reflexivity|].
  exact (create_var_chain no_fallback_vars chain_A
           [VStr "--a"; VStr "--b"] chain_C chain_A_names
           chain_A_names_valid eq_refl eq_refl).
Defined.

Example create_var_switches :
  create_var default_config chain_A
  = Ok (VCall "var" [VStr "--a"; VCall "var" [VStr "--b"; VStr "teal"]]) /\
  create_var (map_merge default_config no_fallback_values) chain_A
  = Ok (VCall "var" [VStr "--a"; VCall "var" [VStr "--b"]]) /\
  create_var no_fallback_vars chain_B
  = Ok (VCall "var" [VStr "--b"; VStr "teal"]) /\
  create_var default_config no_fallback = Ok (VCall "var" [VStr "--a"]) /\
  create_var default_config empty_fallback = Error (NotACssValue (VList [])).
Proof. repeat split; reflexivity. Qed.

(** With custom properties emitted, what [create-var] returns is the
    string of a [var()] call. *)
Lemma create_var_call (config : smap) (p v : value) :
  truthy (assoc_get config "emit-custom-properties") = true ->
  create_var config p = Ok v ->
  exists args, v = VCall "var" args.
Proof.
  intros Hon. rewrite create_var_eq, Hon. simpl.
  destruct (get_varname p) as [name|]; simpl; [|discriminate].
  destruct (get_fallback p true) as [fb|]; simpl; [|discriminate].
  destruct (is_custom_prop fb && truthy (assoc_get config "emit-fallback-vars")).
  - destruct (create_var config fb) as [inner|]; simpl; [|discriminate].
    intros H. eexists. exact (plain_css_call_result _ _ _ _ H).
  - match goal with |- context [if ?b then _ else _] => destruct b end;
      intros H; eexists; exact (plain_css_call_result _ _ _ _ H).
Qed.

(** X9. With custom properties emitted, a value [create-var] returns is a
    [var(] string in the sense of [is-custom-prop-string], and not a
    record; a record itself is never such a string. *)
Theorem create_var_is_custom_prop_string (config : smap) (p v : value) :
  is_custom_prop p = true ->
  truthy (assoc_get config "emit-custom-properties") = true ->
  create_var config p = Ok v ->
  is_custom_prop_string p = false /\
  is_custom_prop_string v = true /\
  is_custom_prop v = false.
Proof.
  intros Hp Hon Hv. split.
  - destruct (is_custom_prop_map p Hp) as [m ->]. reflexivity.
  - destruct (create_var_call config p v Hon Hv) as [args ->].
    split; reflexivity.
Qed.

Lemma create_var_is_custom_prop_string_witness :
  is_custom_prop chain_A = true /\
  truthy (assoc_get default_config "emit-custom-properties") = true /\
  create_var default_config chain_A
  = Ok (VCall "var" [VStr "--a"; VCall "var" [VStr "--b"; VStr "teal"]]) /\
  is_custom_prop_string chain_A = false /\
  is_custom_prop_string
    (VCall "var" [VStr "--a"; VCall "var" [VStr "--b"; VStr "teal"]]) = true /\
  is_custom_prop
    (VCall "var" [VStr "--a"; VCall "var" [VStr "--b"; VStr "teal"]]) = false.
Proof.
  split; [reflexivity|]. split; [reflexivity|]. split; [reflexivity|].
  apply (create_var_is_custom_prop_string default_config chain_A);
    reflexivity.
Defined.

Example is_custom_prop_string_doc :
  is_custom_prop_string (VStr "var(--foo)") = true /\
  is_custom_prop_string (VStr "teal") = false /\
  is_custom_prop_string (VStr "va") = false /\
  is_custom_prop_string (VNum 4) = false.
Proof. repeat split; reflexivity. Qed.

(** X10. Given a record as its first argument, the [declaration] mixin
    does not look at [$custom-prop] and includes [css.declaration] once,
    without a fallback value.  With custom properties emitted the include
    is that of the record's name, with the record's first fallback as the
    value, rendered by [create-var] when that is a record itself, and the
    mixin fails exactly when that rendering does; with them off the
    record is passed on as the property and the value is [null]. *)
Theorem declaration_standalone (config : smap)
    (property custom_prop gss important : value) :
  is_custom_prop property = true ->
  exists name first,
    get_varname property = Ok name /\
    map_get property "fallback" = Ok first /\
    declaration config property custom_prop gss important
    = if truthy (assoc_get config "emit-custom-properties")
      then value_ <- (if is_custom_prop first
                      then create_var config first
                      else Ok first) ;;
           Ok [Css.Emit name value_ VNull gss important]
      else Ok [Css.Emit property VNull VNull gss important].
Proof.
  intros Hp.
  destruct (custom_prop_map_get property "varname" Hp) as [name Hname].
  destruct (custom_prop_map_get property "fallback" Hp) as [first Hfirst].
  assert (Htruthy : truthy property = true)
    by (destruct (is_custom_prop_map property Hp) as [m ->]; reflexivity).
  exists name, first.
  split; [exact Hname|]. split; [exact Hfirst|].
  unfold declaration, get_varname.
  rewrite Htruthy, Hp.
  destruct (truthy (assoc_get config "emit-custom-properties"));
    [|reflexivity].
  rewrite Hname, get_fallback_shallow, Hfirst. reflexivity.
Qed.

Lemma declaration_standalone_witness :
  is_custom_prop chain_A = true /\
  exists name first,
    get_varname chain_A = Ok name /\
    map_get chain_A "fallback" = Ok first /\
    declaration default_config chain_A (VNum 3) (VList []) (VBool false)
    = if truthy (assoc_get default_config "emit-custom-properties")
      then value_ <- (if is_custom_prop first
                      then create_var default_config first
                      else Ok first) ;;
           Ok [Css.Emit name value_ VNull (VList []) (VBool false)]
      else Ok [Css.Emit chain_A VNull VNull (VList []) (VBool false)].
Proof.
  split; [reflexivity|].
  apply (declaration_standalone default_config chain_A (VNum 3)
           (VList []) (VBool false)).
  reflexivity.
Defined.

Example declaration_standalone_doc :
  declaration default_config chain_B VNull (VList []) (VBool false)
  = Ok [Css.Emit (VStr "--b") (VStr "teal") VNull (VList []) (VBool false)] /\
  declaration default_config chain_A VNull (VList []) (VBool false)
  = Ok [Css.Emit (VStr "--a") (VCall "var" [VStr "--b"; VStr "teal"]) VNull
          (VList []) (VBool false)] /\
  declaration config_disabled chain_B VNull (VList []) (VBool false)
  = Ok [Css.Emit chain_B VNull VNull (VList []) (VBool false)] /\
  declaration default_config
    (VMap [("varname", VStr "--c"); ("fallback", empty_fallback)])
    VNull (VList []) (VBool false)
  = Error (NotACssValue (VList [])).
Proof. repeat split; reflexivity. Qed.

(** X11. Given a property name and a record, the [declaration] mixin
    fails exactly when [create-var] does; otherwise it includes
    [css.declaration] with the value of [create-var] and, as the static
    fallback value, the value the record's chain ends in when both custom
    properties and fallback values are emitted, and [null] otherwise. *)
Theorem declaration_fallback_value (config : smap)
    (property p c gss important : value) :
  truthy property = true ->
  is_custom_prop property = false ->
  fallback_chain p c ->
  declaration config property p gss important
  = (v <- create_var config p ;;
     Ok [Css.Emit property v
           (if truthy (assoc_get config "emit-custom-properties")
               && truthy (assoc_get config "emit-fallback-values")
            then c else VNull)
           gss important]).
Proof.
  intros Htruthy Hname Hc.
  assert (Hp : is_custom_prop p = true) by (inversion Hc; assumption).
  unfold declaration, get_declaration_value, get_declaration_fallback.
  rewrite Htruthy, Hname, Hp, (get_fallback_deep p c Hc). simpl.
  destruct (create_var config p); simpl; [|reflexivity].
  destruct (truthy (assoc_get config "emit-custom-properties"));
    destruct (truthy (assoc_get config "emit-fallback-values")); reflexivity.
Qed.

Lemma declaration_fallback_value_witness :
  truthy (VStr "color") = true /\
  is_custom_prop (VStr "color") = false /\
  fallback_chain chain_A chain_C /\
  declaration (map_merge default_config no_fallback_values)
    (VStr "color") chain_A (VList []) (VBool true)
  = (v <- create_var (map_merge default_config no_fallback_values) chain_A ;;
     Ok [Css.Emit (VStr "color") v
           (if truthy (assoc_get (map_merge default_config no_fallback_values)
                         "emit-custom-properties")
               && truthy (assoc_get
                            (map_merge default_config no_fallback_values)
                            "emit-fallback-values")
            then chain_C else VNull)
           (VList []) (VBool true)]).
Proof.
  split; [reflexivity|]. split; [reflexivity|].
  split; [exact chain_A_to_C|].
  apply (declaration_fallback_value
           (map_merge default_config no_fallback_values)
           (VStr "color") chain_A chain_C (VList []) (VBool true));
    [reflexivity | reflexivity | exact chain_A_to_C].
Defined.

(** ** Custom properties: the configuration a block sees *)

Lemma assoc_get_map_set (m : smap) (key key' : string) (v : value) :
  assoc_get (map_set m key v) key'
  = if String.eqb key key' then v else assoc_get m key'.
Proof.
  induction m as [|[k x] rest IH]; simpl.
  - reflexivity.
  - destruct (String.eqb_spec k key) as [->|Hk]; simpl.
    + destruct (String.eqb key key'); reflexivity.
    + rewrite IH. destruct (String.eqb_spec k key') as [->|Hk'];
        [|reflexivity].
      destruct (String.eqb_spec key key'); [congruence|reflexivity].
Qed.

Lemma assoc_has_key_in (m : smap) (key : string) :
  assoc_has_key m key = true <-> In key (map_keys m).
Proof.
  induction m as [|[k x] rest IH]; simpl.
  - split; [discriminate|contradiction].
  - rewrite orb_true_iff, IH, String.eqb_eq. reflexivity.
Qed.

Lemma assoc_get_no_key (m : smap) (key : string) :
  assoc_has_key m key = false -> assoc_get m key = VNull.
Proof.
  induction m as [|[k x] rest IH]; simpl; [reflexivity|].
  destruct (String.eqb k key); simpl; [discriminate|assumption].
Qed.

(** [map.merge]: the second map's entries win, the others stay. *)
Lemma assoc_get_map_merge (m1 m2 : smap) (key : string) :
  NoDup (map_keys m2) ->
  assoc_get (map_merge m1 m2) key
  = if assoc_has_key m2 key then assoc_get m2 key else assoc_get m1 key.
Proof.
  unfold map_merge. revert m1.
  induction m2 as [|[k v] rest IH]; intros m1 Hnodup; simpl.
  - reflexivity.
  - inversion Hnodup as [|? ? Hnotin Hrest]; subst.
    rewrite (IH _ Hrest), assoc_get_map_set.
    destruct (String.eqb_spec k key) as [->|Hk]; simpl; [|reflexivity].
    destruct (assoc_has_key rest key) eqn:E; [|reflexivity].
    apply assoc_has_key_in in E. contradiction.
Qed.

(** Is the key given with the value [null]? *)
Definition null_key (keywords : smap) (key : string) : bool :=
  existsb (fun kv => String.eqb (fst kv) key && is_null (snd kv)) keywords.

Lemma remove_nulls_filter (keywords : smap) :
  remove_nulls keywords
  = filter (fun kv => negb (null_key keywords (fst kv))) keywords.
Proof.
  unfold remove_nulls.
  generalize keywords at 2 4 as acc. generalize keywords as l.
  induction l as [|[k v] rest IH]; intros acc; simpl.
  - induction acc as [|a acc IHacc]; simpl; [reflexivity|].
    f_equal. exact IHacc.
  - rewrite IH. destruct (is_null v) eqn:Hv.
    + unfold map_remove.
      induction acc as [|[k' v'] acc IHacc]; simpl; [reflexivity|].
      rewrite andb_true_r, (String.eqb_sym k k').
      destruct (String.eqb k' k); simpl; [exact IHacc|].
      destruct (null_key rest k'); simpl; [exact IHacc|].
      f_equal. exact IHacc.
    + apply filter_ext. intros [k' v']. simpl.
      rewrite andb_false_r. reflexivity.
Qed.

Lemma null_key_value (keywords : smap) (key : string) (v : value) :
  NoDup (map_keys keywords) ->
  In (key, v) keywords ->
  null_key keywords key = is_null v.
Proof.
  induction keywords as [|[k x] rest IH]; simpl; [contradiction|].
  intros Hnodup Hin. inversion Hnodup as [|? ? Hnotin Hrest]; subst.
  destruct Hin as [Heq|Hin].
  - inversion Heq; subst. rewrite String.eqb_refl. simpl.
    destruct (null_key rest key) eqn:E; [|apply orb_false_r].
    exfalso. apply Hnotin. unfold null_key in E.
    apply existsb_exists in E. destruct E as ([k' v'] & Hin & Hmatch).
    simpl in Hmatch. apply andb_true_iff in Hmatch.
    destruct Hmatch as [Heq' _]. apply String.eqb_eq in Heq'. subst k'.
    apply in_map_iff. exists (key, v'). split; [reflexivity|assumption].
  - destruct (String.eqb_spec k key) as [->|Hk]; simpl.
    + exfalso. apply Hnotin. apply in_map_iff.
      exists (key, v). split; [reflexivity|assumption].
    + apply IH; assumption.
Qed.

(** On a map, whose keys are distinct, the loop of [configure] keeps the
    entries that are not null. *)
Lemma remove_nulls_distinct (keywords : smap) :
  NoDup (map_keys keywords) ->
  remove_nulls keywords
  = filter (fun kv => negb (is_null (snd kv))) keywords.
Proof.
  intros Hnodup. rewrite remove_nulls_filter.
  apply filter_ext_in. intros [k v] Hin. simpl.
  rewrite (null_key_value keywords k v Hnodup Hin). reflexivity.
Qed.

Lemma filter_keys_distinct (keep : string * value -> bool) (m : smap) :
  NoDup (map_keys m) -> NoDup (map_keys (filter keep m)).
Proof.
  induction m as [|[k v] rest IH]; simpl; intros Hnodup; [constructor|].
  inversion Hnodup as [|? ? Hnotin Hrest]; subst.
  destruct (keep (k, v)); simpl; [|auto].
  constructor; [|auto].
  intros Hin. apply Hnotin. unfold map_keys in *.
  apply in_map_iff in Hin. destruct Hin as (kv & Hk & Hin).
  apply filter_In in Hin. apply in_map_iff. exists kv. tauto.
Qed.

Lemma non_null_lookup (m : smap) (key : string) :
  NoDup (map_keys m) ->
  assoc_has_key (filter (fun kv => negb (is_null (snd kv))) m) key
  = negb (is_null (assoc_get m key)) /\
  assoc_get (filter (fun kv => negb (is_null (snd kv))) m) key
  = assoc_get m key.
Proof.
  induction m as [|[k v] rest IH]; simpl; intros Hnodup.
  - split; reflexivity.
  - inversion Hnodup as [|? ? Hnotin Hrest]; subst.
    destruct (IH Hrest) as [IH1 IH2].
    destruct (String.eqb_spec k key) as [->|Hk].
    + rewrite (ValidateSpec.assoc_get_absent rest key Hnotin) in IH1, IH2.
      destruct (is_null v) eqn:Hv; simpl.
      * rewrite IH1, IH2. destruct v; try discriminate. split; reflexivity.
      * rewrite String.eqb_refl. simpl. split; reflexivity.
    + destruct (is_null v); simpl; [split; assumption|].
      destruct (String.eqb_spec k key); [contradiction|].
      simpl. split; assumption.
Qed.

(** The configuration the content of [configure] runs under. *)
Lemma scoped_lookup (config keywords : smap) (key : string) :
  NoDup (map_keys keywords) ->
  assoc_get (map_merge config (remove_nulls keywords)) key
  = if is_null (assoc_get keywords key)
    then assoc_get config key
    else assoc_get keywords key.
Proof.
  intros Hnodup. rewrite (remove_nulls_distinct keywords Hnodup).
  rewrite assoc_get_map_merge by (apply filter_keys_distinct; assumption).
  destruct (non_null_lookup keywords key Hnodup) as [-> ->].
  destruct (is_null (assoc_get keywords key)); reflexivity.
Qed.

(** X12. Around any block, [configure] runs the block under a
    configuration in which each switch given with a value that is not null
    has that value and every other switch keeps the value it had; it fails
    exactly when the block does, passes on what the block emits, and fails
    with 'content is required for configure()' without a block. *)
Theorem configure_scope (keywords config : smap) :
  NoDup (map_keys keywords) ->
  exists scoped,
    (forall key,
       assoc_get scoped key
       = if is_null (assoc_get keywords key)
         then assoc_get config key
         else assoc_get keywords key) /\
    (forall content : block,
       is_error (configure keywords (Some content) config)
       = is_error (content scoped)) /\
    (forall (content : block) after css,
       content scoped = Ok (after, css) ->
       exists after',
         configure keywords (Some content) config = Ok (after', css)) /\
    configure keywords None config = Error ContentRequired.
Proof.
  intros Hnodup.
  exists (map_merge config (remove_nulls keywords)).
  split; [intros key; apply scoped_lookup; assumption|].
  unfold configure.
  destruct (remove_nulls keywords) as [|kv rest].
  - change (map_merge config []) with config.
    split; [reflexivity|]. split; [|reflexivity].
    intros content after css H. exists after. exact H.
  - change (Nat.eqb (List.length (kv :: rest)) 0) with false.
    cbv beta iota zeta.
    split; [|split; [|reflexivity]].
    + intros content.
      destruct (content (map_merge config (kv :: rest))); reflexivity.
    + intros content after css H. rewrite H. exists config. reflexivity.
Qed.

Definition some_switches : smap :=
  [ ("emit-fallback-values", VBool false); ("emit-fallback-vars", VNull) ].

Lemma some_switches_distinct : NoDup (map_keys some_switches).
Proof.
  repeat constructor; simpl; intuition discriminate.
Defined.

Lemma configure_scope_witness :
  NoDup (map_keys some_switches) /\
  exists scoped,
    (forall key,
       assoc_get scoped key
       = if is_null (assoc_get some_switches key)
         then assoc_get default_config key
         else assoc_get some_switches key) /\
    (forall content : block,
       is_error (configure some_switches (Some content) default_config)
       = is_error (content scoped)) /\
    (forall (content : block) after css,
       content scoped = Ok (after, css) ->
       exists after',
         configure some_switches (Some content) default_config
         = Ok (after', css)) /\
    configure some_switches None default_config = Error ContentRequired.
Proof.
  split; [exact some_switches_distinct|].
  exact (configure_scope some_switches default_config some_switches_distinct).
Defined.

Example configure_null_switch :
  remove_nulls some_switches = [("emit-fallback-values", VBool false)] /\
  map_merge default_config (remove_nulls some_switches)
  = [ ("emit-custom-properties", VBool true);
      ("emit-fallback-values", VBool false);
      ("emit-fallback-vars", VBool true) ].
Proof. split; reflexivity. Qed.

(** X13. Included inside [configure($emit-custom-properties: false)], the
    [declaration] of a property name with a record emits the value the
    record's chain ends in, with no [var()] and no fallback value,
    whatever the configuration was, and leaves that configuration as it
    was. *)
Theorem configure_disables_custom_properties (config : smap)
    (property p c gss important : value) :
  truthy property = true ->
  is_custom_prop property = false ->
  fallback_chain p c ->
  configure [("emit-custom-properties", VBool false)]
    (Some (exec_all [IncludeDeclaration property p gss important])) config
  = Ok (config, [Css.Emit property c VNull gss important]).
Proof.
  intros Htruthy Hname Hc.
  unfold configure.
  change (remove_nulls [("emit-custom-properties", VBool false)])
    with [("emit-custom-properties", VBool false)].
  change (Nat.eqb (List.length [("emit-custom-properties", VBool false)]) 0)
    with false.
  cbv beta iota zeta.
  set (scoped := map_merge config [("emit-custom-properties", VBool false)]).
  assert (Hoff : truthy (assoc_get scoped "emit-custom-properties") = false).
  { unfold scoped, map_merge. simpl.
    rewrite assoc_get_map_set, String.eqb_refl. reflexivity. }
  simpl. unfold seq. simpl.
  rewrite (declaration_emission_disabled scoped property p c gss important
             Hoff Htruthy Hname Hc).
  reflexivity.
Qed.

Lemma configure_disables_custom_properties_witness :
  truthy (VStr "color") = true /\
  is_custom_prop (VStr "color") = false /\
  fallback_chain chain_A chain_C /\
  configure [("emit-custom-properties", VBool false)]
    (Some (exec_all [IncludeDeclaration (VStr "color") chain_A
                       (VList []) (VBool false)])) no_fallback_vars
  = Ok (no_fallback_vars,
        [Css.Emit (VStr "color") chain_C VNull (VList []) (VBool false)]).
Proof.
  split; [reflexivity|]. split; [reflexivity|].
  split; [exact chain_A_to_C|].
  apply (configure_disables_custom_properties no_fallback_vars
           (VStr "color") chain_A chain_C (VList []) (VBool false));
    [reflexivity | reflexivity | exact chain_A_to_C].
Defined.

End CustomPropertiesFacts.

(** ** Theme validation: what is accepted and what is reported *)

Module ValidateFacts.
Import Validate ValidateSpec.

Lemma nil_iff_no_member {A : Type} (l : list A) :
  l = [] <-> forall x, ~ In x l.
Proof.
  split.
  - intros -> x H. exact H.
  - apply nil_no_member.
Qed.

(** The three outcomes of the validator, by the two lists it computes. *)
Lemma validate_outcome (valid_tokens : list string) (theme : smap)
    (require_all : bool) :
  _validate_theme_tokens valid_tokens theme require_all
  = match unsupported valid_tokens theme with
    | _ :: _ => Error (InvalidTokens (unsupported valid_tokens theme))
    | [] =>
        match (if require_all then missing valid_tokens theme else []) with
        | _ :: _ => Error (MissingTokens (missing valid_tokens theme))
        | [] => Ok theme
        end
    end.
Proof.
  unfold _validate_theme_tokens.
  destruct (unsupported valid_tokens theme); simpl; [|reflexivity].
  destruct require_all; simpl; [|reflexivity].
  destruct (missing valid_tokens theme); reflexivity.
Qed.

Lemma missing_nil (valid_tokens : list string) (theme : smap) :
  missing valid_tokens theme = [] <->
  forall k, In k valid_tokens ->
            assoc_get theme k <> VNull
            \/ StringExt.has_suffix k "-type" = true.
Proof.
  rewrite nil_iff_no_member. split.
  - intros H k Hin.
    destruct (is_null (assoc_get theme k)) eqn:Hnull.
    + destruct (StringExt.has_suffix k "-type") eqn:Hs; [right; reflexivity|].
      exfalso. apply (H k). apply missing_spec.
      apply is_null_spec in Hnull. auto.
    + left. intros Heq. rewrite Heq in Hnull. discriminate.
  - intros H k Hk. apply missing_spec in Hk.
    destruct Hk as (Hin & Hnull & Hs).
    destruct (H k Hin) as [Hv|Ht]; congruence.
Qed.

Lemma unsupported_nil_iff (valid_tokens : list string) (theme : smap) :
  unsupported valid_tokens theme = [] <->
  forall k, In k (map_keys theme) -> In k valid_tokens.
Proof.
  split; [|apply unsupported_nil].
  intros H k Hin.
  destruct (list_index_is_null valid_tokens k) eqn:E.
  - exfalso. apply list_index_is_null_spec in E.
    assert (In k (unsupported valid_tokens theme)) as Hk
      by (apply unsupported_spec; auto).
    rewrite H in Hk. exact Hk.
  - unfold list_index_is_null in E. apply negb_false_iff in E.
    apply existsb_exists in E. destruct E as (y & Hy & Heq).
    apply String.eqb_eq in Heq. subst y. assumption.
Qed.

(** X14. With all tokens required, [theme-styles] accepts a theme, and
    then returns it as it is, exactly when every key of the theme is a key
    of the reference theme and every reference key either has a value that
    is not null in the theme or ends in [-type]. *)
Theorem theme_styles_accepts_iff (reference_theme theme result_ : smap) :
  theme_styles reference_theme theme true = Ok result_ <->
  result_ = theme /\
  (forall k, In k (map_keys theme) -> In k (map_keys reference_theme)) /\
  (forall k, In k (map_keys reference_theme) ->
             assoc_get theme k <> VNull
             \/ StringExt.has_suffix k "-type" = true).
Proof.
  unfold theme_styles. rewrite validate_outcome.
  pose proof (unsupported_nil_iff (map_keys reference_theme) theme) as Hu.
  pose proof (missing_nil (map_keys reference_theme) theme) as Hm.
  destruct (unsupported (map_keys reference_theme) theme) eqn:Eu.
  - destruct (missing (map_keys reference_theme) theme) eqn:Em.
    + split.
      * intros H. injection H as <-.
        split; [reflexivity|].
        split; [exact (proj1 Hu eq_refl)|exact (proj1 Hm eq_refl)].
      * intros (-> & _ & _). reflexivity.
    + split; [discriminate|]. intros (_ & _ & H).
      apply (proj2 Hm) in H. discriminate.
  - split; [discriminate|]. intros (_ & H & _).
    apply (proj2 Hu) in H. discriminate.
Qed.

Definition typeless_theme : smap :=
  [ ("container-color", VStr "ivory"); ("label-text-color", VStr "navy") ].

Example theme_styles_type_token_optional :
  theme_styles light_theme typeless_theme true = Ok typeless_theme.
Proof. reflexivity. Qed.

(** X15. [theme], which validates a theme given by a user, accepts it, and
    then returns it as it is, exactly when every key of the theme is a key
    of the reference theme; it never reports a missing token. *)
Theorem theme_accepts_iff (reference_theme theme_ : smap) :
  (forall result_,
     Validate.theme reference_theme theme_ = Ok result_ <->
     result_ = theme_ /\
     forall k, In k (map_keys theme_) -> In k (map_keys reference_theme)) /\
  (forall missing_tokens,
     Validate.theme reference_theme theme_
     <> Error (MissingTokens missing_tokens)).
Proof.
  unfold Validate.theme. rewrite validate_outcome.
  pose proof (unsupported_nil_iff (map_keys reference_theme) theme_) as Hu.
  destruct (unsupported (map_keys reference_theme) theme_) eqn:Eu.
  - split.
    + intros result_. split.
      * intros H. injection H as <-. split; [reflexivity|].
        exact (proj1 Hu eq_refl).
      * intros (-> & _). reflexivity.
    + intros missing_tokens. discriminate.
  - split.
    + intros result_. split; [discriminate|]. intros (_ & H).
      apply (proj2 Hu) in H. discriminate.
    + intros missing_tokens. discriminate.
Qed.

(** X16. An error listing missing tokens is raised only with
    [$require-all] true and no unsupported key in the theme; the tokens it
    lists are valid tokens that the theme lacks or maps to null, and none
    of them ends in [-type]. *)
Theorem missing_error_sound (valid_tokens : list string) (theme : smap)
    (require_all : bool) (missing_tokens : list string) :
  _validate_theme_tokens valid_tokens theme require_all
  = Error (MissingTokens missing_tokens) ->
  require_all = true /\
  (forall k, In k (map_keys theme) -> In k valid_tokens) /\
  missing_tokens <> [] /\
  (forall token, In token missing_tokens ->
                 In token valid_tokens /\
                 assoc_get theme token = VNull /\
                 StringExt.has_suffix token "-type" = false).
Proof.
  rewrite validate_outcome.
  destruct (unsupported valid_tokens theme) eqn:Eu; [|discriminate].
  destruct require_all; simpl; [|discriminate].
  destruct (missing valid_tokens theme) eqn:Em; [discriminate|].
  intros H. inversion H; subst. clear H.
  split; [reflexivity|].
  split; [apply unsupported_nil_iff; assumption|].
  split; [discriminate|].
  intros token Hin. rewrite <- Em in Hin. apply missing_spec. assumption.
Qed.

Lemma missing_error_sound_witness :
  _validate_theme_tokens (map_keys light_theme) partial_theme true
  = Error (MissingTokens ["container-color"]) /\
  true = true /\
  (forall k, In k (map_keys partial_theme) -> In k (map_keys light_theme)) /\
  ["container-color"] <> [] /\
  (forall token, In token ["container-color"] ->
                 In token (map_keys light_theme) /\
                 assoc_get partial_theme token = VNull /\
                 StringExt.has_suffix token "-type" = false).
Proof.
  split; [reflexivity|].
  apply (missing_error_sound (map_keys light_theme) partial_theme true
           ["container-color"]).
  reflexivity.
Defined.

(** X17. The empty theme: [theme] accepts it; [theme-styles] with all
    tokens required accepts it only when every reference key ends in
    [-type], and otherwise reports the reference keys that do not, in the
    order of the reference theme. *)
Theorem validate_empty_theme (reference_theme : smap) :
  Validate.theme reference_theme [] = Ok [] /\
  theme_styles reference_theme [] true
  = match filter (fun k => negb (StringExt.has_suffix k "-type"))
                 (map_keys reference_theme) with
    | [] => Ok []
    | required => Error (MissingTokens required)
    end.
Proof.
  split; [reflexivity|].
  unfold theme_styles. rewrite validate_outcome. simpl.
  rewrite missing_filter.
  assert (Hsame : filter (is_missing []) (map_keys reference_theme)
                  = filter (fun k => negb (StringExt.has_suffix k "-type"))
                           (map_keys reference_theme)).
  { apply filter_ext. intros k. rewrite is_missing_eq. reflexivity. }
  rewrite Hsame.
  destruct (filter _ (map_keys reference_theme)); reflexivity.
Qed.

Example validate_empty_light_theme :
  theme_styles light_theme [] true
  = Error (MissingTokens ["container-color"; "label-text-color"]).
Proof. reflexivity. Qed.

(** X18. [theme-styles] asks more than [theme]: a theme it accepts, with
    all tokens required or not, is accepted by [theme] too. *)
Theorem theme_styles_stricter (reference_theme theme_ result_ : smap)
    (require_all : bool) :
  theme_styles reference_theme theme_ require_all = Ok result_ ->
  Validate.theme reference_theme theme_ = Ok result_.
Proof.
  unfold theme_styles, Validate.theme. rewrite !validate_outcome.
  destruct (unsupported (map_keys reference_theme) theme_);
    [|discriminate].
  destruct require_all; simpl; [|auto].
  destruct (missing (map_keys reference_theme) theme_); [auto|discriminate].
Qed.

Lemma theme_styles_stricter_witness :
  theme_styles light_theme full_theme true = Ok full_theme /\
  Validate.theme light_theme full_theme = Ok full_theme.
Proof.
  split; [reflexivity|].
  apply (theme_styles_stricter light_theme full_theme full_theme true).
  reflexivity.
Defined.

End ValidateFacts.

(** ** The character counter: what the text shows, update after update *)

Module CharacterCounterFacts.
Import CharacterCounter CharacterCounterSpec.

Lemma to_int_not_nil (n : Z) :
  Z.to_int n <> Decimal.Pos Nil /\ Z.to_int n <> Decimal.Neg Nil.
Proof.
  destruct n as [|p|p]; simpl; split; try discriminate;
    intros H; inversion H as [Hnil];
    exact (Unsigned.to_uint_nonnil p Hnil).
Qed.

(** Two integers with the same decimal text are the same. *)
Lemma number_to_string_injective (a b : Z) :
  number_to_string a = number_to_string b -> a = b.
Proof.
  unfold number_to_string. intros H.
  apply (f_equal NilZero.int_of_string) in H.
  destruct (to_int_not_nil a) as [Ha1 Ha2].
  destruct (to_int_not_nil b) as [Hb1 Hb2].
  rewrite (NilZero.isi _ Ha1 Ha2), (NilZero.isi _ Hb1 Hb2) in H.
  inversion H as [Hint]. apply DecimalZ.to_int_inj. exact Hint.
Qed.

(** X19. The text of the counter tells the lengths it was made from: two
    updates that give [adapter.setContent] the same text have the same
    maximum and the same clamped current length. *)
Theorem content_determines_lengths (currentLength maxLength
    currentLength' maxLength' : Z) (content : string) :
  In (SetContent content)
     (setCounterValue recorder currentLength maxLength []) ->
  In (SetContent content)
     (setCounterValue recorder currentLength' maxLength' []) ->
  Z.min currentLength maxLength = Z.min currentLength' maxLength'
  /\ maxLength = maxLength'.
Proof.
  unfold setCounterValue. simpl.
  intros [H|[H|[]]] [H'|[H'|[]]]; try discriminate.
  inversion H as [Hc]. inversion H' as [Hc']. clear H H'.
  rewrite <- Hc' in Hc.
  destruct (separator_unique _ _ _ _
              (number_to_string_no_separator _)
              (number_to_string_no_separator _) Hc) as [Hcur Hmax].
  split; apply number_to_string_injective; congruence.
Qed.

Lemma content_determines_lengths_witness :
  In (SetContent "10 / 10") (setCounterValue recorder 12 10 []) /\
  In (SetContent "10 / 10") (setCounterValue recorder 15 10 []) /\
  Z.min 12 10 = Z.min 15 10 /\ 10%Z = 10%Z.
Proof.
  split; [left; reflexivity|]. split; [left; reflexivity|].
  apply (content_determines_lengths 12 10 15 10 "10 / 10");
    left; reflexivity.
Defined.

(** A run of updates of one counter, each a current and a maximum
    length, on the recording adapter. *)
Definition updates (lengths : list (Z * Z)) (log : list call) : list call :=
  fold_left
    (fun log cm => setCounterValue recorder (fst cm) (snd cm) log)
    lengths log.

Lemma updates_log (lengths : list (Z * Z)) (log : list call) :
  updates lengths log
  = (log ++
     flat_map
       (fun cm =>
          [ SetContent (number_to_string (Z.min (fst cm) (snd cm))
                          ++ " / " ++ number_to_string (snd cm));
            SetCounterValue (Z.min (fst cm) (snd cm)) (snd cm) ])
       lengths)%list.
Proof.
  unfold updates. revert log.
  induction lengths as [|[c m] rest IH]; intros log; simpl.
  - rewrite app_nil_r. reflexivity.
  - rewrite IH. unfold setCounterValue. simpl.
    rewrite <- !app_assoc. reflexivity.
Qed.

(** X20. Over any run of updates, every pair given to
    [adapter.setCounterValue] has its current length at most its maximum
    and comes from an update with that maximum, the text of that pair has
    been given to [adapter.setContent], and each update makes two calls. *)
Theorem updates_clamped (lengths : list (Z * Z)) :
  List.length (updates lengths []) = 2 * List.length lengths /\
  forall c m,
    In (SetCounterValue c m) (updates lengths []) ->
    (c <= m)%Z /\
    (exists currentLength,
       In (currentLength, m) lengths /\ c = Z.min currentLength m) /\
    In (SetContent (number_to_string c ++ " / " ++ number_to_string m))
       (updates lengths []).
Proof.
  rewrite updates_log. simpl. split.
  - induction lengths as [|cm rest IH]; simpl; [reflexivity|].
    rewrite IH. lia.
  - intros c m Hin. apply in_flat_map in Hin.
    destruct Hin as ([c0 m0] & Hmem & Hcall). simpl in Hcall.
    destruct Hcall as [H|[H|[]]]; [discriminate|].
    inversion H; subst. clear H.
    split; [apply Z.le_min_r|].
    split; [exists c0; split; [assumption|reflexivity]|].
    apply in_flat_map. exists (c0, m). split; [assumption|].
    left. reflexivity.
Qed.

Example updates_example :
  updates [(3, 10); (12, 10); (0, 0)]%Z []
  = [ SetContent "3 / 10"; SetCounterValue 3 10;
      SetContent "10 / 10"; SetCounterValue 10 10;
      SetContent "0 / 0"; SetCounterValue 0 0 ].
Proof. reflexivity. Qed.

End CharacterCounterFacts.
